(** * Artale broadcast bot: subscription engine, feed listener, dispatcher

    A shallow embedding of
    - [SubscriberService] (src/subscriber/subscriber.service.ts):
      [subscribe], [unsubscribe], [partialUnsubscribe], [getSubscription],
      [isSubscribed], [mergeKeywordFilters], [validateSubscriptionRequest];
    - [DatabaseService], as far as the engine uses it: the collection of
      subscriber documents keyed by the unique [userId];
    - [WebSocketService]: [generateMessageId], [cleanupProcessedMessages],
      [calculateReconnectDelay], the [close]/[open] handlers, the
      [new_message] branch of [handleMessage] and the matching and grouping
      loop of [broadcastToDiscord].

    JavaScript strings are modelled as [string] (byte sequences, UTF-8 for
    literals).  [String.prototype.toLowerCase] is a parameter [lower] of
    every definition that calls it, so the general theorems hold for the
    real Unicode mapping; [asciiLower] is the instance used to run the
    concrete scenarios, whose strings have no cased letter outside ASCII. *)

From Stdlib Require Import Ascii String ZArith.
From stdpp Require Import gmap strings list fin_maps pretty.

Open Scope string_scope.
Open Scope list_scope.

#[local] Set Warnings "-clear-no-such-hyp".

(** ** Data model *)

(** [KeywordFilter] of src/schemas/subscriber.schema.ts; message types are
    plain strings in the code ([messageTypes: string[]]). *)
Record KeywordFilter := mkFilter {
  keyword : string;
  messageTypes : list string
}.

(** [SubscriberConfig]: what [getSubscriber] projects out of a document. *)
Record SubscriberConfig := mkConfig {
  channelId : string;
  keywordFilters : list KeywordFilter
}.

(** [SubscriptionRequest]. *)
Record SubscriptionRequest := mkRequest {
  req_userId : string;
  req_channelId : string;
  req_keywordFilters : list KeywordFilter
}.

#[global] Instance KeywordFilter_eq_dec : EqDecision KeywordFilter.
Proof. solve_decision. Defined.

#[global] Instance SubscriberConfig_eq_dec : EqDecision SubscriberConfig.
Proof. solve_decision. Defined.

(** ** JavaScript built-ins used by the code *)

(** [asciiLower]: [toLowerCase] on strings whose only cased characters are
    the ASCII letters (bytes 65..90 are moved to 97..122). *)
Definition asciiLowerChar (c : ascii) : ascii :=
  let n := nat_of_ascii c in
  if (65 <=? n)%nat && (n <=? 90)%nat then ascii_of_nat (n + 32) else c.

Fixpoint asciiLower (s : string) : string :=
  match s with
  | EmptyString => EmptyString
  | String c r => String (asciiLowerChar c) (asciiLower r)
  end.

(** [Array.prototype.includes] on an array of strings. *)
Definition arr_includes (l : list string) (x : string) : bool :=
  bool_decide (x ∈ l).

(** [String.prototype.includes]: [str_includes hay needle] is
    [hay.includes(needle)]. *)
Fixpoint str_includes (hay needle : string) : bool :=
  String.prefix needle hay ||
  match hay with
  | EmptyString => false
  | String _ r => str_includes r needle
  end.

(** [Array.prototype.join]. *)
Fixpoint join (sep : string) (l : list string) : string :=
  match l with
  | [] => ""
  | [x] => x
  | x :: r => x +:+ sep +:+ join sep r
  end.

(** A JS [Set<string>] as its elements in insertion order; [set_add] is
    [Set.prototype.add], [Array.from(s)] is the list itself. *)
Definition set_add (s : list string) (x : string) : list string :=
  if arr_includes s x then s else s ++ [x].

(** ** SubscriberService.mergeKeywordFilters *)

Section Merge.
Variable lower : string → string.

(** Body of the two [forEach] loops that fill [keywordMap]. *)
Definition accumulate (keywordMap : gmap string (list string))
    (filter : KeywordFilter) : gmap string (list string) :=
  let lowerKeyword := lower (keyword filter) in
  let keywordMap :=
    match keywordMap !! lowerKeyword with
    | Some _ => keywordMap
    | None => <[lowerKeyword := []]> keywordMap
    end in
  fold_left
    (fun m type =>
       <[lowerKeyword := set_add (default [] (m !! lowerKeyword)) type]> m)
    (messageTypes filter) keywordMap.

(** Body of the two [forEach] loops that build [result]; the state is
    ([result], [processedKeywords]). *)
Definition emit (keywordMap : gmap string (list string))
    (st : list KeywordFilter * list string) (filter : KeywordFilter)
    : list KeywordFilter * list string :=
  let '(result, processedKeywords) := st in
  let lowerKeyword := lower (keyword filter) in
  if arr_includes processedKeywords lowerKeyword then st
  else (result ++ [mkFilter (keyword filter)
                     (default [] (keywordMap !! lowerKeyword))],
        set_add processedKeywords lowerKeyword).

Definition mergeKeywordFilters (existing newFilters : list KeywordFilter)
    : list KeywordFilter :=
  let keywordMap := fold_left accumulate existing ∅ in
  let keywordMap := fold_left accumulate newFilters keywordMap in
  let st := fold_left (emit keywordMap) existing ([], []) in
  let st := fold_left (emit keywordMap) newFilters st in
  fst st.
End Merge.

(** *** Reference definition of the merge

    Written after the specification: a case-insensitive accumulator from
    the lower-cased keyword to the union of the message types of the
    existing and of the requested filters, and an output sequence in
    first-seen order (existing keywords first, in their own casing, then the
    keywords only the request has). *)

Section MergeReference.
Variable lower : string → string.

(** Message types that the filters of [fs] give to the lower-cased
    keyword [k], as a set. *)
Definition ref_types (fs : list KeywordFilter) (k : string) : gset string :=
  list_to_set
    (flat_map messageTypes
       (List.filter (fun f => bool_decide (lower (keyword f) = k)) fs)).

Definition ref_union (existing newFilters : list KeywordFilter)
    (k : string) : gset string :=
  ref_types existing k ∪ ref_types newFilters k.

(** The filters of [fs] that introduce a lower-cased keyword neither in
    [seen] nor earlier in [fs]. *)
Fixpoint first_seen (seen : gset string) (fs : list KeywordFilter)
    : list KeywordFilter :=
  match fs with
  | [] => []
  | f :: r =>
      if decide (lower (keyword f) ∈ seen) then first_seen seen r
      else f :: first_seen ({[lower (keyword f)]} ∪ seen) r
  end.

Definition lowered_keys (fs : list KeywordFilter) : gset string :=
  list_to_set ((fun f => lower (keyword f)) <$> fs).

Definition merge_reference (existing newFilters : list KeywordFilter)
    : list (string * gset string) :=
  (fun f => (keyword f, ref_union existing newFilters (lower (keyword f))))
    <$> (first_seen ∅ existing
         ++ first_seen (lowered_keys existing) newFilters).
End MergeReference.

(** The set a stored filter stands for. *)
Definition filter_view (f : KeywordFilter) : string * gset string :=
  (keyword f, list_to_set (messageTypes f)).

(** No two entries with the same lower-cased keyword. *)
Definition unique_ci (lower : string → string) (fs : list KeywordFilter)
    : Prop :=
  NoDup ((fun f => lower (keyword f)) <$> fs).

#[global] Instance unique_ci_dec lower fs : Decision (unique_ci lower fs).
Proof. unfold unique_ci. apply _. Defined.

(** ** DatabaseService

    The collection of subscriber documents; [userId] carries a unique
    index, so the collection is a finite map from [userId] to the fields
    [getSubscriber] returns.  The [updatedAt] stamp that every save
    rewrites is not part of [SubscriberConfig] and is left out, and so are
    the driver errors that the service catches and logs: the operations
    below are the ones of a driver that answers. *)

Definition getSubscriber (db : gmap string SubscriberConfig)
    (userId : string) : option SubscriberConfig :=
  db !! userId.

Definition saveSubscriberWithFilters (db : gmap string SubscriberConfig)
    (userId channelId : string) (keywordFilters : list KeywordFilter)
    (merge : bool) : gmap string SubscriberConfig :=
  let finalKeywordFilters :=
    if merge then
      match db !! userId with
      | Some _ => keywordFilters
      | None => keywordFilters
      end
    else keywordFilters in
  <[userId := mkConfig channelId finalKeywordFilters]> db.

Definition removeSubscriber (db : gmap string SubscriberConfig)
    (userId : string) : gmap string SubscriberConfig :=
  delete userId db.

(** [getAllSubscribers]: the [Map] built from [find()].  The finite map
    does not record the order in which the driver returns the documents;
    [map_to_list] is one enumeration of them, and what depends on the order
    (the order of the messages and of the mentions within one) is stated
    over every enumeration, see [enumerates] and [fanOut]. *)
Definition getAllSubscribers (db : gmap string SubscriberConfig)
    : list (string * SubscriberConfig) :=
  map_to_list db.

(** ** SubscriberService.subscribe *)

Definition subscribe (lower : string → string)
    (db : gmap string SubscriberConfig) (request : SubscriptionRequest)
    : gmap string SubscriberConfig * SubscriberConfig :=
  let userId := req_userId request in
  let channelId := req_channelId request in
  let requestedFilters := req_keywordFilters request in
  let existingConfig := getSubscriber db userId in
  let shouldMerge := bool_decide (is_Some existingConfig) in
  let finalKeywordFilters :=
    match existingConfig with
    | Some existingConfig =>
        mergeKeywordFilters lower (keywordFilters existingConfig)
          requestedFilters
    | None => requestedFilters
    end in
  (saveSubscriberWithFilters db userId channelId finalKeywordFilters
     shouldMerge,
   mkConfig channelId finalKeywordFilters).

(** ** SubscriberService.partialUnsubscribe

    The parameters [keywordFilters] of [subscribe] and [messageTypes] of
    [partialUnsubscribe] are called [requestedFilters] and [requestedTypes]
    here, the record fields of the same names being in scope. *)

Record UnsubscribeResult := mkResult {
  success : bool;
  remainingCount : nat;
  removedItems : list string;
  remainingFilters : list KeywordFilter
}.

(** The two locals the [map] callbacks write: [hasChanges] and
    [removedItems]. *)
Record Effects := mkEffects {
  hasChanges : bool;
  pushed : list string
}.

Definition typeName (t : string) : string :=
  if String.eqb t "buy" then "收購" else "販售".

(** [removedItems.push(...)] together with [hasChanges = true]. *)
Definition record_removal (item : string) (st : Effects) : Effects :=
  mkEffects true (pushed st ++ [item]).

(** Subtraction of the requested types from one filter: the part of the
    callback from [const remainingTypes] on, which the keyword branch and the
    all-keywords branch share line for line.  [None] is the callback's
    [null]. *)
Definition subtractTypes (requestedTypes : list string)
    (filter : KeywordFilter) (st : Effects)
    : option KeywordFilter * Effects :=
  let remainingTypes :=
    List.filter (fun type => negb (arr_includes requestedTypes type))
      (messageTypes filter) in
  let removedTypes :=
    List.filter (fun type => arr_includes requestedTypes type)
      (messageTypes filter) in
  if (length remainingTypes =? 0)%nat then
    (None, record_removal (keyword filter +:+ " (全部)") st)
  else if negb (length remainingTypes
                =? length (messageTypes filter))%nat then
    (Some (mkFilter (keyword filter) remainingTypes),
     record_removal
       (keyword filter +:+ " (" +:+ join ", " (typeName <$> removedTypes)
        +:+ ")") st)
  else (Some filter, st).

(** Callback of the branch [keywords.length > 0]. *)
Definition keywordCallback (lower : string → string)
    (keywordsLower requestedTypes : list string)
    (filter : KeywordFilter) (st : Effects)
    : option KeywordFilter * Effects :=
  if arr_includes keywordsLower (lower (keyword filter)) then
    if (length requestedTypes =? 0)%nat then
      (None, record_removal (keyword filter +:+ " (全部)") st)
    else subtractTypes requestedTypes filter st
  else (Some filter, st).

(** [.map(callback).filter((filter) => filter !== null)], threading the
    locals the callback writes. *)
Fixpoint mapFilters
    (callback : KeywordFilter → Effects → option KeywordFilter * Effects)
    (filters : list KeywordFilter) (st : Effects)
    : list KeywordFilter * Effects :=
  match filters with
  | [] => ([], st)
  | filter :: rest =>
      let '(kept, st) := callback filter st in
      let '(out, st) := mapFilters callback rest st in
      (match kept with Some f => f :: out | None => out end, st)
  end.

Definition partialUnsubscribe (lower : string → string)
    (db : gmap string SubscriberConfig) (userId : string)
    (keywords requestedTypes : list string)
    : gmap string SubscriberConfig * UnsubscribeResult :=
  match getSubscriber db userId with
  | None => (db, mkResult false 0 [] [])
  | Some existingConfig =>
      let existingFilters := keywordFilters existingConfig in
      if (length existingFilters =? 0)%nat then
        (db, mkResult false 0 [] [])
      else
        let unchanged :=
          (db, mkResult false (length existingFilters) [] existingFilters) in
        let finish (run : list KeywordFilter * Effects) :=
          let '(updatedFilters, st) := run in
          if negb (hasChanges st) then unchanged
          else if (length updatedFilters =? 0)%nat then
            (removeSubscriber db userId, mkResult true 0 (pushed st) [])
          else
            (saveSubscriberWithFilters db userId (channelId existingConfig)
               updatedFilters false,
             mkResult true (length updatedFilters) (pushed st)
               updatedFilters) in
        if (0 <? length keywords)%nat then
          let keywordsLower := lower <$> keywords in
          finish (mapFilters
                    (keywordCallback lower keywordsLower requestedTypes)
                    existingFilters (mkEffects false []))
        else if (length requestedTypes =? 0)%nat then unchanged
        else
          finish (mapFilters (subtractTypes requestedTypes) existingFilters
                    (mkEffects false []))
  end.

(** ** WebSocketService: deduplication and reconnect *)

Record Payload := mkPayload {
  message_type : string;
  channel : string;
  player_name : string;
  player_id : string;
  content : string
}.

Record ArtaleMessage := mkMessage {
  type : string;
  payload : option Payload
}.

(** The fields of the service that the handlers below read or write.
    [processedMessageIds] is a [Set<string>], kept in insertion order. *)
Record Listener := mkListener {
  processedMessageIds : list string;
  reconnectAttempts : N
}.

Definition maxReconnectAttempts : N := 10.
Definition baseReconnectDelay : N := 5000.
Definition maxReconnectDelay : N := 30000.

Definition initialListener : Listener := mkListener [] 0.

Section Feed.
(** [createHash('md5').update(s).digest('hex')]. *)
Variable md5 : string → string.

Definition generateMessageId (payload : option Payload) : string :=
  match payload with
  | None => ""
  | Some payload =>
      let messageData :=
        player_id payload +:+ "-" +:+ content payload +:+ "-"
        +:+ message_type payload +:+ "-" +:+ channel payload in
      md5 messageData
  end.

(** [idsArray.slice(-500)] refills the cleared set. *)
Definition cleanupProcessedMessages (ids : list string) : list string :=
  if (1000 <? length ids)%nat then drop (length ids - 500) ids else ids.

(** What a handler asks the rest of the service to do. *)
Inductive Action :=
| SubscribeToNewMessages
| StartPingInterval
| BroadcastToDiscord (payload : Payload).

Definition handleMessage (st : Listener) (message : ArtaleMessage)
    : Listener * list Action :=
  if String.eqb (type message) "connection_info" then
    (st, [SubscribeToNewMessages])
  else if String.eqb (type message) "subscription_confirmed" then
    (st, [StartPingInterval])
  else if String.eqb (type message) "pong" then (st, [])
  else if String.eqb (type message) "new_message" then
    match payload message with
    | Some p =>
        let messageId := generateMessageId (Some p) in
        if arr_includes (processedMessageIds st) messageId then (st, [])
        else
          let ids := set_add (processedMessageIds st) messageId in
          (mkListener (cleanupProcessedMessages ids) (reconnectAttempts st),
           [BroadcastToDiscord p])
    | None => (st, [])
    end
  else (st, []).

(** Frames handled one after the other; the actions are collected in
    order. *)
Fixpoint handleMessages (st : Listener) (messages : list ArtaleMessage)
    : Listener * list Action :=
  match messages with
  | [] => (st, [])
  | m :: rest =>
      let '(st, acts) := handleMessage st m in
      let '(st, acts') := handleMessages st rest in
      (st, acts ++ acts')
  end.
End Feed.

Definition calculateReconnectDelay (st : Listener) : N :=
  N.min (baseReconnectDelay * 2 ^ reconnectAttempts st) maxReconnectDelay.

(** The [close] handler: the delay of the reconnect it schedules, if any. *)
Definition onClose (st : Listener) : option N :=
  if (reconnectAttempts st <? maxReconnectAttempts)%N
  then Some (calculateReconnectDelay st) else None.

(** The scheduled callback: [this.reconnectAttempts++] before [connect]. *)
Definition onReconnectTimer (st : Listener) : Listener :=
  mkListener (processedMessageIds st) (reconnectAttempts st + 1).

(** The [open] handler. *)
Definition onOpen (st : Listener) : Listener :=
  mkListener (processedMessageIds st) 0.

(** Delays of [n] closes in a row, every reconnect failing before [open]. *)
Fixpoint closeDelays (n : nat) (st : Listener) : list (option N) :=
  match n with
  | O => []
  | S n => onClose st :: closeDelays n (onReconnectTimer st)
  end.

(** ** WebSocketService.broadcastToDiscord: matching and grouping *)

Definition newline : string := String (ascii_of_nat 10) EmptyString.

Section Dispatch.
Variable lower : string → string.

(** The condition [messageTypeMatches && keywordMatches]. *)
Definition filterMatches (payload : Payload) (filter : KeywordFilter)
    : bool :=
  let messageTypeMatches :=
    arr_includes (messageTypes filter) (message_type payload) in
  let keywordMatches :=
    str_includes (lower (content payload)) (lower (keyword filter)) in
  messageTypeMatches && keywordMatches.

Definition reasonText (payload : Payload) (filter : KeywordFilter)
    : string :=
  let typeText :=
    if String.eqb (message_type payload) "buy" then "收購" else "販售" in
  keyword filter +:+ " (" +:+ typeText +:+ ")".

Definition matchedReasons (payload : Payload)
    (keywordFilters : list KeywordFilter) : list string :=
  if (0 <? length keywordFilters)%nat then
    fold_left
      (fun reasons filter =>
         if filterMatches payload filter
         then reasons ++ [reasonText payload filter] else reasons)
      keywordFilters []
  else [].

(** [channelToUsersWithReasons], a [Map] in insertion order; the entries
    of a channel are (userId, reason). *)
Fixpoint pushUser (groups : list (string * list (string * string)))
    (channelId : string) (entry : string * string)
    : list (string * list (string * string)) :=
  match groups with
  | [] => [(channelId, [entry])]
  | (c, users) :: rest =>
      if String.eqb c channelId then (c, users ++ [entry]) :: rest
      else (c, users) :: pushUser rest channelId entry
  end.

Definition groupSubscribers (payload : Payload)
    (subscribers : list (string * SubscriberConfig))
    : list (string * list (string * string)) :=
  fold_left
    (fun groups '(userId, userConfig) =>
       let reasons := matchedReasons payload (keywordFilters userConfig) in
       if (0 <? length reasons)%nat
       then pushUser groups (channelId userConfig)
              (userId, join ", " reasons)
       else groups)
    subscribers [].

Definition mentionsWithReasons (users : list (string * string)) : string :=
  join newline
    ((fun '(userId, reason) => "<@" +:+ userId +:+ "> - " +:+ reason)
       <$> users).

(** The fan-out: one (channelId, text body) per channel group. *)
Definition broadcastToDiscord (db : gmap string SubscriberConfig)
    (payload : Payload) : list (string * string) :=
  (fun '(channelId, users) => (channelId, mentionsWithReasons users))
    <$> groupSubscribers payload (getAllSubscribers db).
End Dispatch.

(** The keyword is a case-insensitive substring of the content. *)
Definition ci_substring (lower : string → string) (k c : string) : Prop :=
  ∃ pre post, lower c = pre +:+ lower k +:+ post.

(** The entry that the output loops of [mergeKeywordFilters] push for the
    filter [f]. *)
Definition entry_of (lower : string → string)
    (keywordMap : gmap string (list string)) (f : KeywordFilter)
    : KeywordFilter :=
  mkFilter (keyword f) (default [] (keywordMap !! lower (keyword f))).

(** ** Vocabulary of the statements about [partialUnsubscribe] *)

(** The filters of a user as the engine sees them: none when there is no
    record. *)
Definition currentFilters (db : gmap string SubscriberConfig)
    (userId : string) : list KeywordFilter :=
  match getSubscriber db userId with
  | Some config => keywordFilters config
  | None => []
  end.

(** The callback [partialUnsubscribe] maps over the filters, by branch. *)
Definition removalCallback (lower : string → string)
    (keywords requestedTypes : list string)
    : KeywordFilter → Effects → option KeywordFilter * Effects :=
  if (0 <? length keywords)%nat
  then keywordCallback lower (lower <$> keywords) requestedTypes
  else subtractTypes requestedTypes.

(** What is left of the filters [fs] once the callback went over them. *)
Definition remainingOf
    (callback : KeywordFilter → Effects → option KeywordFilter * Effects)
    (fs : list KeywordFilter) : list KeywordFilter :=
  (mapFilters callback fs (mkEffects false [])).1.

(** The filter is one the request aims at: every filter when no keyword is
    given, else those whose lower-cased keyword is among the lower-cased
    requested ones. *)
Definition targeted (lower : string → string) (keywords : list string)
    (f : KeywordFilter) : Prop :=
  keywords = [] ∨ lower (keyword f) ∈ lower <$> keywords.

(** What the proofs need of a callback: the filter it returns does not
    depend on the locals, it never resets [hasChanges], it sets
    [hasChanges] whenever it returns anything but the filter it was given,
    and it never renames a filter. *)
Definition steady
    (callback : KeywordFilter → Effects → option KeywordFilter * Effects)
    : Prop :=
  ∀ f st,
    (∀ st', (callback f st).1 = (callback f st').1)
    ∧ (hasChanges st = true → hasChanges (callback f st).2 = true)
    ∧ ((callback f st).1 ≠ Some f → hasChanges (callback f st).2 = true)
    ∧ (∀ g, (callback f st).1 = Some g → keyword g = keyword f).

(** ** SubscriberService: the remaining operations *)

(** [unsubscribe]: the new store and the boolean the call returns. *)
Definition unsubscribe (db : gmap string SubscriberConfig) (userId : string)
    : gmap string SubscriberConfig * bool :=
  match getSubscriber db userId with
  | None => (db, false)
  | Some _ => (removeSubscriber db userId, true)
  end.

Definition getSubscription (db : gmap string SubscriberConfig)
    (userId : string) : option SubscriberConfig :=
  getSubscriber db userId.

Definition isSubscribed (db : gmap string SubscriberConfig)
    (userId : string) : bool :=
  match getSubscriber db userId with
  | Some _ => true
  | None => false
  end.

(** [Partial<SubscriptionRequest>]: every field may be missing. *)
Record PartialRequest := mkPartial {
  p_userId : option string;
  p_channelId : option string;
  p_keywordFilters : option (list KeywordFilter)
}.

(** [!s] for an optional string: missing or empty. *)
Definition missing (s : option string) : bool :=
  match s with
  | None => true
  | Some s => String.eqb s ""
  end.

Definition validTypes : list string := ["buy"; "sell"].

Section Validate.
(** [String.prototype.trim]. *)
Variable trim : string → string.

(** Body of the [forEach] over the filters; [index] counts from 0. *)
Definition validateFilter (index : nat) (filter : KeywordFilter)
    : list string :=
  (if String.eqb (keyword filter) ""
      || String.eqb (trim (keyword filter)) ""
   then ["keyword is required for filter " +:+ pretty (index + 1)%nat]
   else [])
  ++ (if (length (messageTypes filter) =? 0)%nat then
        ["at least one message type is required for filter "
         +:+ pretty (index + 1)%nat]
      else
        let invalidTypes :=
          List.filter (fun type => negb (arr_includes validTypes type))
            (messageTypes filter) in
        if (0 <? length invalidTypes)%nat then
          ["invalid message types for filter " +:+ pretty (index + 1)%nat
           +:+ ": " +:+ join ", " invalidTypes]
        else []).

(** [validateSubscriptionRequest]: ([isValid], [errors]). *)
Definition validateSubscriptionRequest (request : PartialRequest)
    : bool * list string :=
  let errors :=
    (if missing (p_userId request) then ["userId is required"] else [])
    ++ (if missing (p_channelId request) then ["channelId is required"]
        else [])
    ++ match p_keywordFilters request with
       | None => ["keywordFilters array is required"]
       | Some filters =>
           if (length filters =? 0)%nat
           then ["at least one keyword filter is required"]
           else concat (imap validateFilter filters)
       end in
  ((length errors =? 0)%nat, errors).
End Validate.

(** A filter that [validateSubscriptionRequest] accepts. *)
Definition well_formed_filter (trim : string → string) (f : KeywordFilter)
    : Prop :=
  keyword f ≠ "" ∧ trim (keyword f) ≠ ""
  ∧ messageTypes f ≠ []
  ∧ ∀ t, t ∈ messageTypes f → t = "buy" ∨ t = "sell".

(** ** WebSocketService: a close and the reconnect it schedules *)

(** One [close] event followed, when a reconnect was scheduled, by the
    firing of its timer: the delay and the listener that reconnects. *)
Definition closeCycle (st : Listener) : option N * Listener :=
  match onClose st with
  | Some delay => (Some delay, onReconnectTimer st)
  | None => (None, st)
  end.

(** [n] closes in a row, no connection opening in between. *)
Fixpoint closeCycles (n : nat) (st : Listener) : list (option N) * Listener :=
  match n with
  | O => ([], st)
  | S n =>
      let '(delay, st) := closeCycle st in
      let '(delays, st) := closeCycles n st in
      (delay :: delays, st)
  end.

(** ** Vocabulary of the statements about the feed and the fan-out *)

(** The payloads that a list of actions hands to [broadcastToDiscord]. *)
Definition dispatched (actions : list Action) : list Payload :=
  omap (fun a => match a with BroadcastToDiscord p => Some p | _ => None end)
    actions.

(** The payloads of the [new_message] frames of a list of frames. *)
Definition offered (messages : list ArtaleMessage) : list Payload :=
  omap (fun m => if String.eqb (type m) "new_message" then payload m else None)
    messages.

(** Some filter of the record matches the event. *)
Definition record_matches (lower : string → string) (payload : Payload)
    (config : SubscriberConfig) : Prop :=
  ∃ f, f ∈ keywordFilters config ∧ filterMatches lower payload f = true.

(** The remaining filter [g] is the filter [f] with some of its message
    types taken away. *)
Definition shrinks (g f : KeywordFilter) : Prop :=
  keyword g = keyword f ∧ messageTypes g `sublist_of` messageTypes f.

(** Whenever [hasChanges] is set an item was pushed: the callback keeps
    that. *)
Definition logs_changes
    (callback : KeywordFilter → Effects → option KeywordFilter * Effects)
    : Prop :=
  ∀ f st,
    (hasChanges st = true → pushed st ≠ []) →
    hasChanges (callback f st).2 = true → pushed (callback f st).2 ≠ [].

(** The users listed under the channel [c] in a fan-out map, none when the
    channel has no entry. *)
Fixpoint group_of (c : string) (groups : list (string * list (string * string)))
    : list (string * string) :=
  match groups with
  | [] => []
  | (c', users) :: rest =>
      if String.eqb c' c then users else group_of c rest
  end.

(** The subscribers of channel [c] that the event concerns, in store order,
    each with the reasons of its matching filters. *)
Definition members (lower : string → string) (payload : Payload) (c : string)
    (subscribers : list (string * SubscriberConfig))
    : list (string * string) :=
  omap
    (fun '(userId, config) =>
       if bool_decide (channelId config = c)
          && bool_decide
               (Exists (fun f => filterMatches lower payload f = true)
                  (keywordFilters config))
       then Some (userId,
                  join ", "
                    (reasonText payload
                     <$> List.filter (filterMatches lower payload)
                           (keywordFilters config)))
       else None)
    subscribers.

(** The list [subscribers] holds the documents of the store, each once, in
    some order: what iterating the [Map] of [getAllSubscribers] yields. *)
Definition enumerates (subscribers : list (string * SubscriberConfig))
    (db : gmap string SubscriberConfig) : Prop :=
  subscribers ≡ₚ map_to_list db.

(** [broadcastToDiscord] from the point where [subscribers] is fetched:
    the loop over the [Map] entries in their iteration order, then one
    (channelId, text body) per channel group. *)
Definition fanOut (lower : string → string) (payload : Payload)
    (subscribers : list (string * SubscriberConfig))
    : list (string * string) :=
  (fun '(channelId, users) => (channelId, mentionsWithReasons users))
    <$> groupSubscribers lower payload subscribers.

(** The scenario of the specification: A subscribes to 劍 and 盾 with type
    buy, then B subscribes with an empty keyword list, both without a prior
    record; the event is a buy broadcast whose content contains 劍. *)
Definition scenario_store : gmap string SubscriberConfig :=
  (subscribe asciiLower
     (subscribe asciiLower ∅
        (mkRequest "userA" "channelA"
           [mkFilter "劍" ["buy"]; mkFilter "盾" ["buy"]])).1
     (mkRequest "userB" "channelB" [])).1.

Definition scenario_event : Payload :=
  mkPayload "buy" "CH1" "Seller" "12345" "收 劍 100雪".

(** ** Lemmas on the built-ins *)

Lemma arr_includes_true l x : arr_includes l x = true ↔ x ∈ l.
Proof. unfold arr_includes. apply bool_decide_eq_true. Qed.

Lemma arr_includes_false l x : arr_includes l x = false ↔ x ∉ l.
Proof. unfold arr_includes. apply bool_decide_eq_false. Qed.

Lemma set_add_elem s x y : y ∈ set_add s x ↔ y ∈ s ∨ y = x.
Proof.
  unfold set_add. destruct (arr_includes s x) eqn:E.
  - apply arr_includes_true in E. split; [tauto | intros [?| ->]; done].
  - rewrite elem_of_app, list_elem_of_singleton. tauto.
Qed.

Lemma set_add_NoDup s x : NoDup s → NoDup (set_add s x).
Proof.
  intros H. unfold set_add. destruct (arr_includes s x) eqn:E; [done|].
  apply arr_includes_false in E. apply NoDup_app. split_and!; [done | | ].
  - intros y Hy ->%list_elem_of_singleton. done.
  - apply NoDup_singleton.
Qed.

Lemma set_add_to_set s x :
  list_to_set (C := gset string) (set_add s x) = list_to_set s ∪ {[x]}.
Proof.
  apply set_eq. intros y.
  rewrite elem_of_list_to_set, set_add_elem. set_solver.
Qed.

(** ** The unit tests of the repository, run on the model

    src/subscriber/subscriber.service.spec.ts, with [asciiLower] for
    [toLowerCase]. *)

Example test_merge_existing :
  mergeKeywordFilters asciiLower
    [mkFilter "劍" ["buy"]; mkFilter "斧" ["buy"]]
    [mkFilter "盾" ["sell"]; mkFilter "劍" ["sell"]]
  = [mkFilter "劍" ["buy"; "sell"]; mkFilter "斧" ["buy"];
     mkFilter "盾" ["sell"]].
Proof. vm_compute. reflexivity. Qed.

Example test_merge_no_duplicate_types :
  mergeKeywordFilters asciiLower
    [mkFilter "劍" ["buy"]] [mkFilter "劍" ["buy"; "sell"]]
  = [mkFilter "劍" ["buy"; "sell"]].
Proof. vm_compute. reflexivity. Qed.

Example test_remove_keyword :
  partialUnsubscribe asciiLower
    {["user1" := mkConfig "channel1"
        [mkFilter "劍" ["buy"; "sell"]; mkFilter "盾" ["buy"];
         mkFilter "斧" ["sell"]]]}
    "user1" ["盾"] []
  = ({["user1" := mkConfig "channel1"
         [mkFilter "劍" ["buy"; "sell"]; mkFilter "斧" ["sell"]]]},
     mkResult true 2 ["盾 (全部)"]
       [mkFilter "劍" ["buy"; "sell"]; mkFilter "斧" ["sell"]]).
Proof. vm_compute. reflexivity. Qed.

Example test_remove_type_of_keyword :
  (partialUnsubscribe asciiLower
     {["user1" := mkConfig "channel1"
         [mkFilter "劍" ["buy"; "sell"]; mkFilter "盾" ["buy"; "sell"]]]}
     "user1" ["劍"] ["buy"]).2
  = mkResult true 2 ["劍 (收購)"]
      [mkFilter "劍" ["sell"]; mkFilter "盾" ["buy"; "sell"]].
Proof. vm_compute. reflexivity. Qed.

Example test_remove_type_everywhere :
  (partialUnsubscribe asciiLower
     {["user1" := mkConfig "channel1"
         [mkFilter "劍" ["buy"; "sell"]; mkFilter "盾" ["buy"; "sell"]]]}
     "user1" [] ["buy"]).2
  = mkResult true 2 ["劍 (收購)"; "盾 (收購)"]
      [mkFilter "劍" ["sell"]; mkFilter "盾" ["sell"]].
Proof. vm_compute. reflexivity. Qed.

Example test_remove_last_filter :
  partialUnsubscribe asciiLower
    {["user1" := mkConfig "channel1" [mkFilter "劍" ["buy"]]]}
    "user1" ["劍"] ["buy"]
  = (∅, mkResult true 0 ["劍 (全部)"] []).
Proof. vm_compute. reflexivity. Qed.

Example test_no_match :
  (partialUnsubscribe asciiLower
     {["user1" := mkConfig "channel1" [mkFilter "劍" ["sell"]]]}
     "user1" ["盾"] ["buy"]).2
  = mkResult false 1 [] [mkFilter "劍" ["sell"]].
Proof. vm_compute. reflexivity. Qed.

(** ** The accumulator of [mergeKeywordFilters] *)

Section MergeProofs.
Variable lower : string → string.

(** The inner [messageTypes.forEach]. *)
Lemma add_types_lookup lk ts (m : gmap string (list string)) s k :
  m !! lk = Some s →
  fold_left
    (fun m type => <[lk := set_add (default [] (m !! lk)) type]> m) ts m
    !! k
  = if decide (lk = k) then Some (fold_left set_add ts s) else m !! k.
Proof.
  revert m s. induction ts as [|t ts IH]; intros m s Hm; simpl.
  - case_decide; congruence.
  - rewrite (IH _ (set_add s t)).
    + case_decide; [done | by rewrite lookup_insert_ne].
    + by rewrite Hm, lookup_insert_eq.
Qed.

Lemma accumulate_lookup (m : gmap string (list string)) f k :
  accumulate lower m f !! k
  = if decide (lower (keyword f) = k)
    then Some (fold_left set_add (messageTypes f) (default [] (m !! k)))
    else m !! k.
Proof.
  unfold accumulate.
  destruct (m !! lower (keyword f)) as [s|] eqn:E.
  - rewrite (add_types_lookup _ _ _ s) by done.
    case_decide; [subst; by rewrite E | done].
  - rewrite (add_types_lookup _ _ _ []) by apply lookup_insert_eq.
    case_decide; [subst; by rewrite E | by rewrite lookup_insert_ne].
Qed.

Lemma fold_set_add_to_set ts s :
  list_to_set (C := gset string) (fold_left set_add ts s)
  = list_to_set s ∪ list_to_set ts.
Proof.
  revert s. induction ts as [|t ts IH]; intros s; simpl.
  - set_solver.
  - rewrite IH, set_add_to_set. set_solver.
Qed.

Lemma fold_set_add_NoDup ts s : NoDup s → NoDup (fold_left set_add ts s).
Proof.
  revert s. induction ts as [|t ts IH]; intros s H; simpl; [done|].
  apply IH. by apply set_add_NoDup.
Qed.

Lemma ref_types_cons f fs k :
  ref_types lower (f :: fs) k
  = (if decide (lower (keyword f) = k)
     then list_to_set (messageTypes f) else ∅) ∪ ref_types lower fs k.
Proof.
  unfold ref_types. simpl. case_bool_decide; case_decide; try done.
  - simpl. rewrite list_to_set_app_L. done.
  - set_solver.
Qed.

(** What the accumulator holds after the filters [fs] went in. *)
Lemma accumulated_types fs (m : gmap string (list string)) k :
  list_to_set (C := gset string)
    (default [] (fold_left (accumulate lower) fs m !! k))
  = list_to_set (default [] (m !! k)) ∪ ref_types lower fs k.
Proof.
  revert m. induction fs as [|f fs IH]; intros m; simpl.
  - unfold ref_types. simpl. set_solver.
  - rewrite IH, accumulate_lookup, ref_types_cons.
    case_decide; simpl.
    + rewrite fold_set_add_to_set. set_solver.
    + set_solver.
Qed.

Lemma accumulated_NoDup fs (m : gmap string (list string)) :
  (∀ k, NoDup (default [] (m !! k))) →
  ∀ k, NoDup (default [] (fold_left (accumulate lower) fs m !! k)).
Proof.
  revert m. induction fs as [|f fs IH]; intros m Hm k; simpl; [done|].
  apply IH. intros k'. rewrite accumulate_lookup.
  case_decide; simpl; [by apply fold_set_add_NoDup | done].
Qed.
Lemma ref_types_app fs gs k :
  ref_types lower (fs ++ gs) k = ref_types lower fs k ∪ ref_types lower gs k.
Proof.
  induction fs as [|f fs IH]; simpl.
  - unfold ref_types at 2. simpl. set_solver.
  - rewrite !ref_types_cons, IH. set_solver.
Qed.

(** The accumulator that [mergeKeywordFilters] reads in its second half. *)
Lemma keywordMap_types existing newFilters k :
  list_to_set (C := gset string)
    (default []
       (fold_left (accumulate lower) newFilters
          (fold_left (accumulate lower) existing ∅) !! k))
  = ref_union lower existing newFilters k.
Proof.
  rewrite <- fold_left_app, accumulated_types, ref_types_app.
  rewrite lookup_empty. unfold ref_union. simpl. set_solver.
Qed.

(** *** The output loops *)

Lemma emit_fold keywordMap fs result processedKeywords :
  fold_left (emit lower keywordMap) fs (result, processedKeywords)
  = (result
     ++ (entry_of lower keywordMap
           <$> first_seen lower (list_to_set processedKeywords) fs),
     processedKeywords
     ++ ((fun f => lower (keyword f))
           <$> first_seen lower (list_to_set processedKeywords) fs)).
Proof.
  revert result processedKeywords.
  induction fs as [|f fs IH]; intros result processed; simpl.
  - by rewrite !app_nil_r.
  - destruct (arr_includes processed (lower (keyword f))) eqn:E.
    + apply arr_includes_true in E.
      rewrite decide_True by (by apply elem_of_list_to_set).
      apply IH.
    + pose proof E as E'. apply arr_includes_false in E'.
      rewrite decide_False by (by rewrite elem_of_list_to_set).
      unfold set_add. rewrite E, IH.
      replace (list_to_set (processed ++ [lower (keyword f)]))
        with ({[lower (keyword f)]} ∪ list_to_set processed : gset string)
        by (rewrite list_to_set_app_L; set_solver).
      simpl. by rewrite <- !app_assoc.
Qed.

Lemma first_seen_app seen fs gs :
  first_seen lower seen (fs ++ gs)
  = first_seen lower seen fs
    ++ first_seen lower (seen ∪ lowered_keys lower fs) gs.
Proof.
  revert seen. induction fs as [|f fs IH]; intros seen; simpl.
  - f_equal. unfold lowered_keys. simpl. set_solver.
  - case_decide as Hin.
    + rewrite IH. do 2 f_equal. unfold lowered_keys. simpl. set_solver.
    + simpl. rewrite IH. do 3 f_equal. unfold lowered_keys. simpl.
      set_solver.
Qed.

Lemma first_seen_fresh seen fs f :
  f ∈ first_seen lower seen fs → f ∈ fs ∧ lower (keyword f) ∉ seen.
Proof.
  revert seen. induction fs as [|g fs IH]; intros seen; simpl.
  - by intros ?%elem_of_nil.
  - case_decide as Hin.
    + intros [? ?]%IH. split; [by right | done].
    + intros [->|[? ?]%IH]%elem_of_cons.
      * split; [by left | done].
      * split; [by right | set_solver].
Qed.

Lemma first_seen_unique_keys seen fs :
  unique_ci lower (first_seen lower seen fs).
Proof.
  unfold unique_ci. revert seen.
  induction fs as [|f fs IH]; intros seen; simpl.
  - constructor.
  - case_decide as Hin; [apply IH|].
    rewrite fmap_cons. constructor; [|apply IH].
    intros (g & Hg & Hin')%list_elem_of_fmap.
    apply first_seen_fresh in Hin' as [_ Hfresh].
    rewrite <- Hg in Hfresh. set_solver.
Qed.

(** On a sequence that already is unique by lower-cased keyword, nothing
    is skipped but what [seen] holds. *)
Lemma first_seen_of_unique seen fs :
  unique_ci lower fs →
  first_seen lower seen fs
  = List.filter (fun f => bool_decide (lower (keyword f) ∉ seen)) fs.
Proof.
  unfold unique_ci. revert seen.
  induction fs as [|f fs IH]; intros seen; simpl; [done|].
  rewrite NoDup_cons. intros [Hf Hfs].
  case_decide as Hin.
  - rewrite bool_decide_eq_false_2 by tauto. by apply IH.
  - rewrite bool_decide_eq_true_2 by done. f_equal.
    rewrite IH by done. apply filter_ext_in. intros g Hg.
    apply bool_decide_ext. apply list_elem_of_In in Hg.
    assert (lower (keyword g) ≠ lower (keyword f)).
    { intros Heq. apply Hf. rewrite <- Heq.
      apply list_elem_of_fmap. by exists g. }
    set_solver.
Qed.
(** *** [mergeKeywordFilters] as a whole *)

Lemma mergeKeywordFilters_first_seen existing newFilters :
  mergeKeywordFilters lower existing newFilters
  = entry_of lower
      (fold_left (accumulate lower) newFilters
         (fold_left (accumulate lower) existing ∅))
    <$> first_seen lower ∅ (existing ++ newFilters).
Proof.
  unfold mergeKeywordFilters.
  rewrite <- (fold_left_app (emit lower _)), emit_fold. simpl.
  done.
Qed.

Lemma mergeKeywordFilters_reference existing newFilters :
  filter_view <$> mergeKeywordFilters lower existing newFilters
  = merge_reference lower existing newFilters.
Proof.
  rewrite mergeKeywordFilters_first_seen. unfold merge_reference.
  rewrite first_seen_app, (left_id_L ∅ (∪)), <- list_fmap_compose.
  apply list_fmap_ext. intros _ f _. unfold filter_view, entry_of. simpl.
  by rewrite keywordMap_types.
Qed.

Lemma mergeKeywordFilters_unique existing newFilters :
  unique_ci lower (mergeKeywordFilters lower existing newFilters).
Proof.
  rewrite mergeKeywordFilters_first_seen. unfold unique_ci.
  rewrite <- list_fmap_compose.
  apply (first_seen_unique_keys ∅ (existing ++ newFilters)).
Qed.

Lemma mergeKeywordFilters_types_NoDup existing newFilters :
  Forall (fun f => NoDup (messageTypes f))
    (mergeKeywordFilters lower existing newFilters).
Proof.
  rewrite mergeKeywordFilters_first_seen. apply Forall_fmap, Forall_forall.
  intros f _. simpl. rewrite <- fold_left_app.
  apply accumulated_NoDup. intros k. rewrite lookup_empty. constructor.
Qed.
(** On inputs that are unique by lower-cased keyword the reference lists
    every existing keyword, then the requested ones the record lacks. *)
Lemma merge_reference_of_unique existing newFilters :
  unique_ci lower existing → unique_ci lower newFilters →
  (merge_reference lower existing newFilters).*1
  = (keyword <$> existing)
    ++ (keyword
          <$> List.filter
                (fun f =>
                   bool_decide (lower (keyword f) ∉ lowered_keys lower existing))
                newFilters).
Proof.
  intros He Hn. unfold merge_reference.
  rewrite <- list_fmap_compose, fmap_app, !first_seen_of_unique by done.
  f_equal. f_equal. induction existing as [|f fs IH]; [done|].
  simpl. rewrite bool_decide_eq_true_2 by set_solver. f_equal.
  apply IH. by apply NoDup_cons in He as [_ ?].
Qed.
End MergeProofs.

(** ** Substring test *)

Lemma append_empty s : "" +:+ s = s.
Proof. reflexivity. Qed.

Lemma append_String c s t : String c s +:+ t = String c (s +:+ t).
Proof. reflexivity. Qed.

Lemma prefix_spec a b :
  String.prefix a b = true ↔ ∃ post, b = a +:+ post.
Proof.
  revert b. induction a as [|c a IH]; intros b.
  - destruct b; simpl; (split; [intros _; by eexists | done]).
  - destruct b as [|d b]; simpl.
    + split; [done | intros [post H]; discriminate].
    + destruct (ascii_dec c d) as [->|Hne].
      * rewrite IH. split; intros [post H]; exists post;
          rewrite append_String in *; congruence.
      * split; [done | intros [post H]].
        rewrite append_String in H. congruence.
Qed.

Lemma str_includes_spec hay needle :
  str_includes hay needle = true ↔ ∃ pre post, hay = pre +:+ needle +:+ post.
Proof.
  induction hay as [|c hay IH].
  - cbn [str_includes]. rewrite orb_false_r, prefix_spec. split.
    + intros [post H]. by exists "", post.
    + intros [[|d pre] [post H]]; [by exists post | discriminate].
  - cbn [str_includes]. rewrite orb_true_iff, prefix_spec, IH. split.
    + intros [[post H]|(pre & post & H)].
      * by exists "", post.
      * exists (String c pre), post. by rewrite append_String, H.
    + intros ([|d pre] & post & H).
      * left. by exists post.
      * right. exists pre, post. rewrite append_String in H. congruence.
Qed.

(** ** Dispatcher matching *)

Lemma matchedReasons_filter lower payload keywordFilters :
  matchedReasons lower payload keywordFilters
  = reasonText payload
    <$> List.filter (filterMatches lower payload) keywordFilters.
Proof.
  unfold matchedReasons.
  assert (∀ fs acc,
    fold_left
      (fun reasons filter =>
         if filterMatches lower payload filter
         then reasons ++ [reasonText payload filter] else reasons) fs acc
    = acc ++ (reasonText payload
                <$> List.filter (filterMatches lower payload) fs)) as Hfold.
  { induction fs as [|f fs IH]; intros acc; simpl.
    - by rewrite app_nil_r.
    - rewrite IH. destruct (filterMatches lower payload f); [|done].
      simpl. by rewrite <- app_assoc. }
  destruct keywordFilters as [|f fs]; [done|].
  replace (0 <? length (f :: fs))%nat with true by done.
  apply Hfold.
Qed.

(** C4: the dispatcher counts a filter as a match exactly when the event's
    message type is one of the filter's message types and the filter's
    keyword is a case-insensitive substring of the event's content; the
    reasons collected for a record are those of its matching filters.  The
    filter sword/[buy] matches the buy event "Selling Sword+10" and does not
    match the sell event with the same content. *)
Theorem filterMatches_conjunction :
  (∀ lower payload filter,
     filterMatches lower payload filter = true
     ↔ message_type payload ∈ messageTypes filter
       ∧ ci_substring lower (keyword filter) (content payload))
  ∧ (∀ lower payload keywordFilters,
       matchedReasons lower payload keywordFilters
       = reasonText payload
         <$> List.filter (filterMatches lower payload) keywordFilters)
  ∧ filterMatches asciiLower
      (mkPayload "buy" "ch1" "player" "0001" "Selling Sword+10")
      (mkFilter "sword" ["buy"]) = true
  ∧ filterMatches asciiLower
      (mkPayload "sell" "ch1" "player" "0001" "Selling Sword+10")
      (mkFilter "sword" ["buy"]) = false.
Proof.
  split_and!.
  - intros lower payload filter. unfold filterMatches, ci_substring.
    rewrite andb_true_iff, arr_includes_true, str_includes_spec. done.
  - apply matchedReasons_filter.
  - vm_compute. reflexivity.
  - vm_compute. reflexivity.
Qed.

(** ** Feed listener: deduplication *)

Section FeedProofs.
Variable md5 : string → string.

(** The key depends on the payload through the four fields only. *)
Lemma generateMessageId_fields p1 p2 :
  player_id p1 = player_id p2 → content p1 = content p2 →
  message_type p1 = message_type p2 → channel p1 = channel p2 →
  generateMessageId md5 (Some p1) = generateMessageId md5 (Some p2).
Proof. unfold generateMessageId. by intros -> -> -> ->. Qed.

(** The identifier just added survives the clean-up: it is the newest
    entry, and the clean-up keeps the newest 500. *)
Lemma cleanup_keeps_newest ids messageId :
  messageId ∈ cleanupProcessedMessages (ids ++ [messageId]).
Proof.
  unfold cleanupProcessedMessages.
  destruct (1000 <? length (ids ++ [messageId]))%nat eqn:E.
  - apply Nat.ltb_lt in E. rewrite length_app in *. simpl in *.
    rewrite drop_app_le by lia. apply elem_of_app. right. by left.
  - apply elem_of_app. right. by left.
Qed.

Lemma handleMessage_new st p :
  generateMessageId md5 (Some p) ∉ processedMessageIds st →
  handleMessage md5 st (mkMessage "new_message" (Some p))
  = (mkListener
       (cleanupProcessedMessages
          (processedMessageIds st ++ [generateMessageId md5 (Some p)]))
       (reconnectAttempts st),
     [BroadcastToDiscord p]).
Proof.
  intros Hnew. unfold handleMessage. cbn [type payload].
  replace (String.eqb "new_message" "connection_info") with false by done.
  replace (String.eqb "new_message" "subscription_confirmed") with false
    by done.
  replace (String.eqb "new_message" "pong") with false by done.
  rewrite String.eqb_refl.
  rewrite (proj2 (arr_includes_false _ _)) by done.
  unfold set_add. by rewrite (proj2 (arr_includes_false _ _)) by done.
Qed.

Lemma handleMessage_seen st p :
  generateMessageId md5 (Some p) ∈ processedMessageIds st →
  handleMessage md5 st (mkMessage "new_message" (Some p)) = (st, []).
Proof.
  intros Hseen. unfold handleMessage. cbn [type payload].
  replace (String.eqb "new_message" "connection_info") with false by done.
  replace (String.eqb "new_message" "subscription_confirmed") with false
    by done.
  replace (String.eqb "new_message" "pong") with false by done.
  rewrite String.eqb_refl.
  by rewrite (proj2 (arr_includes_true _ _)) by done.
Qed.

(** After a [new_message] frame its key is in the recent set, whether the
    frame was forwarded or dropped. *)
Lemma handleMessage_records st p :
  generateMessageId md5 (Some p)
  ∈ processedMessageIds
      (handleMessage md5 st (mkMessage "new_message" (Some p))).1.
Proof.
  destruct (decide (generateMessageId md5 (Some p) ∈ processedMessageIds st))
    as [Hin|Hout].
  - by rewrite handleMessage_seen.
  - rewrite handleMessage_new by done. apply cleanup_keeps_newest.
Qed.
End FeedProofs.

(** C5: two [new_message] frames whose payloads agree on playerId, content,
    messageType and channel, handled one after the other: the second is
    dropped, its key being in the recent set by then, and leaves the
    listener as it was; when the key was not in the recent set before the
    first frame (as for the initial listener), the pair causes exactly one
    dispatch, that of the first frame. *)
Theorem duplicate_delivery_dispatches_once md5 st p1 p2 :
  player_id p1 = player_id p2 → content p1 = content p2 →
  message_type p1 = message_type p2 → channel p1 = channel p2 →
  let m1 := mkMessage "new_message" (Some p1) in
  let m2 := mkMessage "new_message" (Some p2) in
  let st1 := (handleMessage md5 st m1).1 in
  generateMessageId md5 (Some p2) ∈ processedMessageIds st1
  ∧ handleMessage md5 st1 m2 = (st1, [])
  ∧ (generateMessageId md5 (Some p1) ∉ processedMessageIds st →
     (handleMessages md5 st [m1; m2]).2 = [BroadcastToDiscord p1])
  ∧ (handleMessages md5 initialListener [m1; m2]).2 = [BroadcastToDiscord p1].
Proof.
  intros Hid Hcontent Htype Hchannel m1 m2 st1.
  pose proof (generateMessageId_fields md5 p1 p2 Hid Hcontent Htype Hchannel)
    as Hkey.
  assert (generateMessageId md5 (Some p2) ∈ processedMessageIds st1) as Hin.
  { rewrite <- Hkey. apply handleMessage_records. }
  assert (∀ s, generateMessageId md5 (Some p1) ∉ processedMessageIds s →
            (handleMessages md5 s [m1; m2]).2 = [BroadcastToDiscord p1])
    as Honce.
  { intros s Hnew. cbn [handleMessages]. subst m1 m2.
    rewrite (handleMessage_new md5 s p1 Hnew).
    rewrite handleMessage_seen; [done|].
    rewrite <- Hkey. apply cleanup_keeps_newest. }
  split_and!; [done | by apply handleMessage_seen | apply Honce |].
  apply Honce. simpl. apply not_elem_of_nil.
Qed.

Lemma duplicate_delivery_dispatches_once_witness :
  let p := mkPayload "buy" "ch1" "player" "0001" "Selling Sword+10" in
  let m := mkMessage "new_message" (Some p) in
  (handleMessages (fun s => s) initialListener [m; m]).2
  = [BroadcastToDiscord p].
Proof.
  intros p m.
  destruct (duplicate_delivery_dispatches_once (fun s => s) initialListener
              p p eq_refl eq_refl eq_refl eq_refl) as (_ & _ & Honce & _).
  apply Honce. simpl. apply not_elem_of_nil.
Defined.

(** ** Feed listener: reconnect delay *)

(** C6: the delay of the reconnect that a close schedules is
    min(base * 2^attempt, cap) for the current attempt counter; with the
    service's base 5000 and cap 30000 the attempts 0 to 5 give 5000, 10000,
    20000, 30000, 30000, 30000, also along six closes in a row from a fresh
    listener. *)
Theorem reconnect_delay_backoff :
  (∀ st, calculateReconnectDelay st
         = N.min (baseReconnectDelay * 2 ^ reconnectAttempts st)
             maxReconnectDelay)
  ∧ (∀ st, onClose st
           = if (reconnectAttempts st <? maxReconnectAttempts)%N
             then Some (N.min (baseReconnectDelay * 2 ^ reconnectAttempts st)
                          maxReconnectDelay)
             else None)
  ∧ baseReconnectDelay = 5000%N ∧ maxReconnectDelay = 30000%N
  ∧ (∀ ids, (fun attempt => calculateReconnectDelay (mkListener ids attempt))
              <$> [0; 1; 2; 3; 4; 5]%N
            = [5000; 10000; 20000; 30000; 30000; 30000]%N)
  ∧ closeDelays 6 initialListener
    = Some <$> [5000; 10000; 20000; 30000; 30000; 30000]%N.
Proof.
  split_and!; try done.
Qed.

(** ** The store *)

Lemma saveSubscriberWithFilters_insert db userId channelId filters merge :
  saveSubscriberWithFilters db userId channelId filters merge
  = <[userId := mkConfig channelId filters]> db.
Proof.
  unfold saveSubscriberWithFilters.
  destruct merge; [destruct (db !! userId)|]; done.
Qed.

Lemma getSubscriber_saved db userId channelId filters merge :
  getSubscriber (saveSubscriberWithFilters db userId channelId filters merge)
    userId
  = Some (mkConfig channelId filters).
Proof.
  rewrite saveSubscriberWithFilters_insert. apply lookup_insert_eq.
Qed.

(** ** subscribe *)

Lemma subscribe_existing lower db request existingConfig :
  getSubscriber db (req_userId request) = Some existingConfig →
  subscribe lower db request
  = (<[req_userId request :=
         mkConfig (req_channelId request)
           (mergeKeywordFilters lower (keywordFilters existingConfig)
              (req_keywordFilters request))]> db,
     mkConfig (req_channelId request)
       (mergeKeywordFilters lower (keywordFilters existingConfig)
          (req_keywordFilters request))).
Proof.
  intros H. unfold subscribe.
  by rewrite H, saveSubscriberWithFilters_insert.
Qed.

Lemma subscribe_absent lower db request :
  getSubscriber db (req_userId request) = None →
  subscribe lower db request
  = (<[req_userId request :=
         mkConfig (req_channelId request) (req_keywordFilters request)]> db,
     mkConfig (req_channelId request) (req_keywordFilters request)).
Proof.
  intros H. unfold subscribe.
  by rewrite H, saveSubscriberWithFilters_insert.
Qed.

(** [subscribe] stores what it returns, under the caller's channel. *)
Lemma subscribe_stores lower db request :
  getSubscriber (subscribe lower db request).1 (req_userId request)
  = Some (subscribe lower db request).2
  ∧ channelId (subscribe lower db request).2 = req_channelId request.
Proof.
  destruct (getSubscriber db (req_userId request)) as [c|] eqn:E.
  - rewrite (subscribe_existing _ _ _ c) by done. simpl.
    split; [apply lookup_insert_eq | done].
  - rewrite subscribe_absent by done. simpl.
    split; [apply lookup_insert_eq | done].
Qed.

(** After a subscribe on an existing record no lower-cased keyword is
    repeated, whatever the record and the request held. *)
Lemma subscribe_existing_unique lower db request existingConfig :
  getSubscriber db (req_userId request) = Some existingConfig →
  unique_ci lower (keywordFilters (subscribe lower db request).2).
Proof.
  intros H. rewrite (subscribe_existing _ _ _ existingConfig) by done.
  apply mergeKeywordFilters_unique.
Qed.

(** C3: the merge that [subscribe] performs on an existing record is the
    reference merge: each output entry stands for its keyword with the
    union of the message types that the existing and the requested filters
    give to the lower-cased keyword, the existing keywords come first in
    their order and casing, then the keywords only the request has, in
    request order; the type arrays hold no duplicate, and the merged
    sequence is what is stored and returned. *)
Theorem subscribe_merge_is_reference lower db request existingConfig :
  getSubscriber db (req_userId request) = Some existingConfig →
  filter_view <$> keywordFilters (subscribe lower db request).2
  = merge_reference lower (keywordFilters existingConfig)
      (req_keywordFilters request)
  ∧ Forall (fun f => NoDup (messageTypes f))
      (keywordFilters (subscribe lower db request).2)
  ∧ getSubscriber (subscribe lower db request).1 (req_userId request)
    = Some (subscribe lower db request).2.
Proof.
  intros H. split_and!; [| |apply subscribe_stores].
  - rewrite (subscribe_existing _ _ _ existingConfig) by done.
    apply mergeKeywordFilters_reference.
  - rewrite (subscribe_existing _ _ _ existingConfig) by done.
    apply mergeKeywordFilters_types_NoDup.
Qed.

Lemma subscribe_merge_is_reference_witness :
  let existingConfig :=
    mkConfig "channel1" [mkFilter "劍" ["buy"]; mkFilter "斧" ["buy"]] in
  let db : gmap string SubscriberConfig := {["user1" := existingConfig]} in
  let request :=
    mkRequest "user1" "channel1"
      [mkFilter "盾" ["sell"]; mkFilter "劍" ["sell"]] in
  getSubscriber db "user1" = Some existingConfig
  ∧ filter_view <$> keywordFilters (subscribe asciiLower db request).2
    = merge_reference asciiLower (keywordFilters existingConfig)
        (req_keywordFilters request).
Proof.
  intros existingConfig db request.
  assert (getSubscriber db (req_userId request) = Some existingConfig) as H
    by (vm_compute; reflexivity).
  split; [exact H|].
  exact (proj1 (subscribe_merge_is_reference asciiLower db request
                  existingConfig H)).
Defined.

(** The merge of a one-filter record with a one-filter request on the same
    keyword. *)
Lemma merge_same_keyword lower A ts1 ts2 :
  mergeKeywordFilters lower [mkFilter A ts1] [mkFilter A ts2]
  = [mkFilter A (fold_left set_add (ts1 ++ ts2) [])].
Proof.
  rewrite mergeKeywordFilters_first_seen. simpl.
  rewrite decide_False by set_solver.
  rewrite decide_True by set_solver. simpl.
  unfold entry_of. simpl. f_equal. f_equal.
  rewrite !accumulate_lookup, !decide_True by done.
  rewrite lookup_empty. simpl. by rewrite fold_left_app.
Qed.

(** C9: for a user with no prior record, subscribing keyword A with [buy]
    and then with [sell] leaves a single filter for A, and so does the
    reverse order; the two message-type arrays have the same members, buy
    and sell. *)
Theorem subscribe_type_union_commutes lower db userId c1 c2 A :
  getSubscriber db userId = None →
  let request types c := mkRequest userId c [mkFilter A types] in
  let buy_sell :=
    subscribe lower (subscribe lower db (request ["buy"] c1)).1
      (request ["sell"] c2) in
  let sell_buy :=
    subscribe lower (subscribe lower db (request ["sell"] c1)).1
      (request ["buy"] c2) in
  ∃ ts1 ts2,
    keywordFilters buy_sell.2 = [mkFilter A ts1]
    ∧ keywordFilters sell_buy.2 = [mkFilter A ts2]
    ∧ getSubscriber buy_sell.1 userId = Some buy_sell.2
    ∧ getSubscriber sell_buy.1 userId = Some sell_buy.2
    ∧ ∀ t, (t ∈ ts1 ↔ t ∈ ts2) ∧ (t ∈ ts1 ↔ t = "buy" ∨ t = "sell").
Proof.
  intros Habsent request buy_sell sell_buy.
  exists ["buy"; "sell"], ["sell"; "buy"].
  assert (∀ ta tb,
    keywordFilters
      (subscribe lower (subscribe lower db (request ta c1)).1
         (request tb c2)).2
    = [mkFilter A (fold_left set_add (ta ++ tb) [])]) as Hrun.
  { intros ta tb. rewrite (subscribe_absent lower db) by done.
    rewrite (subscribe_existing lower _ _ (mkConfig c1 [mkFilter A ta]))
      by apply lookup_insert_eq.
    simpl. apply merge_same_keyword. }
  split_and!.
  - apply Hrun.
  - apply Hrun.
  - apply (subscribe_stores lower _ (request ["sell"] c2)).
  - apply (subscribe_stores lower _ (request ["buy"] c2)).
  - intros t. rewrite !elem_of_cons, elem_of_nil. tauto.
Qed.

Lemma subscribe_type_union_commutes_witness :
  let request types := mkRequest "user1" "channel1" [mkFilter "劍" types] in
  let buy_sell :=
    subscribe asciiLower (subscribe asciiLower ∅ (request ["buy"])).1
      (request ["sell"]) in
  let sell_buy :=
    subscribe asciiLower (subscribe asciiLower ∅ (request ["sell"])).1
      (request ["buy"]) in
  getSubscriber (∅ : gmap string SubscriberConfig) "user1" = None
  ∧ ∃ ts1 ts2,
      keywordFilters buy_sell.2 = [mkFilter "劍" ts1]
      ∧ keywordFilters sell_buy.2 = [mkFilter "劍" ts2]
      ∧ getSubscriber buy_sell.1 "user1" = Some buy_sell.2
      ∧ getSubscriber sell_buy.1 "user1" = Some sell_buy.2
      ∧ ∀ t, (t ∈ ts1 ↔ t ∈ ts2) ∧ (t ∈ ts1 ↔ t = "buy" ∨ t = "sell").
Proof.
  intros request buy_sell sell_buy.
  split; [apply lookup_empty|].
  exact (subscribe_type_union_commutes asciiLower ∅ "user1" "channel1"
           "channel1" "劍" (lookup_empty _)).
Defined.

(** ** partialUnsubscribe: the callbacks *)

Lemma subtractTypes_steady requestedTypes :
  steady (subtractTypes requestedTypes).
Proof.
  intros f st. unfold subtractTypes.
  destruct (length (List.filter _ (messageTypes f)) =? 0)%nat eqn:E0;
    [|destruct (negb _) eqn:E1]; simpl.
  - split_and!; try done.
  - split_and!; try done. intros g [= <-]. done.
  - split_and!; try done. by intros g [= <-].
Qed.

Lemma keywordCallback_steady lower keywordsLower requestedTypes :
  steady (keywordCallback lower keywordsLower requestedTypes).
Proof.
  intros f st. unfold keywordCallback.
  destruct (arr_includes keywordsLower (lower (keyword f))).
  - destruct (length requestedTypes =? 0)%nat.
    + simpl. split_and!; done.
    + apply subtractTypes_steady.
  - simpl. split_and!; try done. by intros g [= <-].
Qed.

Lemma removalCallback_steady lower keywords requestedTypes :
  steady (removalCallback lower keywords requestedTypes).
Proof.
  unfold removalCallback. destruct (0 <? length keywords)%nat.
  - apply keywordCallback_steady.
  - apply subtractTypes_steady.
Qed.

(** A filter all of whose types are requested is dropped. *)
Lemma subtractTypes_emptied requestedTypes f st :
  (∀ t, t ∈ messageTypes f → t ∈ requestedTypes) →
  (subtractTypes requestedTypes f st).1 = None.
Proof.
  intros Hall. unfold subtractTypes.
  replace (List.filter (fun type => negb (arr_includes requestedTypes type))
             (messageTypes f)) with (@nil string); [done|].
  symmetry. induction (messageTypes f) as [|t ts IH]; simpl; [done|].
  rewrite (proj2 (arr_includes_true requestedTypes t)) by (apply Hall; by left).
  simpl. apply IH. intros t' Ht'. apply Hall. by right.
Qed.

Lemma removalCallback_emptied lower keywords requestedTypes f st :
  targeted lower keywords f →
  (∀ t, t ∈ messageTypes f → t ∈ requestedTypes) →
  (removalCallback lower keywords requestedTypes f st).1 = None.
Proof.
  intros Htarget Hall. unfold removalCallback.
  destruct keywords as [|k ks]; simpl.
  - by apply subtractTypes_emptied.
  - destruct Htarget as [?|Hin]; [done|].
    unfold keywordCallback.
    rewrite (proj2 (arr_includes_true _ _)) by done.
    destruct (length requestedTypes =? 0)%nat; [done|].
    by apply subtractTypes_emptied.
Qed.

(** ** partialUnsubscribe: the mapping loop *)

Section MapFilters.
Variable callback : KeywordFilter → Effects → option KeywordFilter * Effects.
Hypothesis callback_steady : steady callback.

Lemma mapFilters_cons f fs st :
  mapFilters callback (f :: fs) st
  = (match (callback f st).1 with
     | Some g => g :: (mapFilters callback fs (callback f st).2).1
     | None => (mapFilters callback fs (callback f st).2).1
     end,
     (mapFilters callback fs (callback f st).2).2).
Proof.
  simpl. destruct (callback f st) as [kept st1]. simpl.
  destruct (mapFilters callback fs st1). reflexivity.
Qed.

Lemma mapFilters_output fs st :
  (mapFilters callback fs st).1 = remainingOf callback fs.
Proof.
  unfold remainingOf. generalize (mkEffects false []). revert st.
  induction fs as [|f fs IH]; intros st st'; [done|].
  rewrite !mapFilters_cons. simpl.
  destruct (callback_steady f st) as (Hfree & _).
  rewrite (Hfree st'), (IH _ (callback f st').2). done.
Qed.

Lemma remainingOf_cons f fs :
  remainingOf callback (f :: fs)
  = match (callback f (mkEffects false [])).1 with
    | Some g => g :: remainingOf callback fs
    | None => remainingOf callback fs
    end.
Proof.
  unfold remainingOf at 1. rewrite mapFilters_cons. simpl.
  by rewrite mapFilters_output.
Qed.

Lemma remainingOf_app fs gs :
  remainingOf callback (fs ++ gs)
  = remainingOf callback fs ++ remainingOf callback gs.
Proof.
  induction fs as [|f fs IH]; [done|].
  rewrite <- app_comm_cons, !remainingOf_cons, IH.
  by destruct (callback f _).1.
Qed.

Lemma mapFilters_changes_kept fs st :
  hasChanges st = true → hasChanges (mapFilters callback fs st).2 = true.
Proof.
  revert st. induction fs as [|f fs IH]; intros st H; [done|].
  rewrite mapFilters_cons. simpl. apply IH.
  destruct (callback_steady f st) as (_ & Hkeep & _). by apply Hkeep.
Qed.

(** Without [hasChanges] nothing was dropped or reduced. *)
Lemma mapFilters_unchanged fs st :
  hasChanges (mapFilters callback fs st).2 = false →
  (mapFilters callback fs st).1 = fs.
Proof.
  revert st. induction fs as [|f fs IH]; intros st H; [done|].
  rewrite mapFilters_cons in *. simpl in *.
  destruct (callback_steady f st) as (_ & _ & Hset & _).
  destruct (decide ((callback f st).1 = Some f)) as [Heq|Hne].
  - rewrite Heq. f_equal. by apply IH.
  - apply Hset in Hne.
    by rewrite (mapFilters_changes_kept fs _ Hne) in H.
Qed.

Lemma mapFilters_dropped_changes l1 f l2 st :
  (callback f (mkEffects false [])).1 = None →
  hasChanges (mapFilters callback (l1 ++ f :: l2) st).2 = true.
Proof.
  intros Hdrop. revert st. induction l1 as [|g l1 IH]; intros st.
  - simpl app. rewrite mapFilters_cons. simpl.
    apply mapFilters_changes_kept.
    destruct (callback_steady f st) as (Hfree & _ & Hset & _).
    apply Hset. by rewrite (Hfree (mkEffects false [])), Hdrop.
  - rewrite <- app_comm_cons, mapFilters_cons. simpl. apply IH.
Qed.

(** The lower-cased keywords that remain are a subsequence of those that
    were there. *)
Lemma remainingOf_keys (lower : string → string) fs :
  ((fun f => lower (keyword f)) <$> remainingOf callback fs)
  `sublist_of` ((fun f => lower (keyword f)) <$> fs).
Proof.
  induction fs as [|f fs IH]; [done|].
  rewrite remainingOf_cons.
  destruct (callback_steady f (mkEffects false [])) as (_ & _ & _ & Hkey).
  destruct (callback f _).1 as [g|] eqn:E.
  - rewrite !fmap_cons, (Hkey g) by done. by apply sublist_skip.
  - rewrite fmap_cons. by apply sublist_cons.
Qed.

Lemma remainingOf_unique (lower : string → string) fs :
  unique_ci lower fs → unique_ci lower (remainingOf callback fs).
Proof.
  unfold unique_ci. intros H.
  eapply sublist_NoDup; [done | apply remainingOf_keys].
Qed.
End MapFilters.

(** ** partialUnsubscribe as a whole *)

(** The three outcomes once a record with filters is found and the request
    names a keyword or a type. *)
Lemma partialUnsubscribe_run lower db userId keywords requestedTypes config :
  getSubscriber db userId = Some config →
  keywordFilters config ≠ [] →
  keywords ≠ [] ∨ requestedTypes ≠ [] →
  let run :=
    mapFilters (removalCallback lower keywords requestedTypes)
      (keywordFilters config) (mkEffects false []) in
  partialUnsubscribe lower db userId keywords requestedTypes
  = if negb (hasChanges run.2) then
      (db, mkResult false (length (keywordFilters config)) []
             (keywordFilters config))
    else if (length run.1 =? 0)%nat then
      (delete userId db, mkResult true 0 (pushed run.2) [])
    else
      (<[userId := mkConfig (channelId config) run.1]> db,
       mkResult true (length run.1) (pushed run.2) run.1).
Proof.
  intros Hget Hne Hreq run. subst run.
  unfold partialUnsubscribe, removalCallback. rewrite Hget.
  destruct (keywordFilters config) as [|f fs] eqn:Efs; [done|].
  replace (length (f :: fs) =? 0)%nat with false by done.
  destruct keywords as [|k ks].
  - destruct requestedTypes as [|t ts]; [by destruct Hreq|].
    replace (0 <? length [])%nat with false by done.
    replace (length (t :: ts) =? 0)%nat with false by done.
    destruct (mapFilters _ _ _) as [updated st]. simpl.
    by rewrite saveSubscriberWithFilters_insert.
  - replace (0 <? length (k :: ks))%nat with true by done.
    destruct (mapFilters _ _ _) as [updated st]. simpl.
    by rewrite saveSubscriberWithFilters_insert.
Qed.

(** The call that names neither a keyword nor a type. *)
Lemma partialUnsubscribe_no_request lower db userId :
  partialUnsubscribe lower db userId [] []
  = (db, mkResult false (length (currentFilters db userId)) []
           (currentFilters db userId)).
Proof.
  unfold partialUnsubscribe, currentFilters.
  destruct (getSubscriber db userId) as [config|]; [|done].
  destruct (keywordFilters config) as [|f fs]; done.
Qed.

(** C8: with neither keywords nor message types the call reports failure,
    leaves the store as it is, and returns the filters the user had (none
    when the user has no record). *)
Theorem partialUnsubscribe_nothing_requested lower db userId :
  success (partialUnsubscribe lower db userId [] []).2 = false
  ∧ (partialUnsubscribe lower db userId [] []).1 = db
  ∧ remainingFilters (partialUnsubscribe lower db userId [] []).2
    = currentFilters db userId
  ∧ removedItems (partialUnsubscribe lower db userId [] []).2 = [].
Proof.
  unfold partialUnsubscribe, currentFilters.
  destruct (getSubscriber db userId) as [config|] eqn:Hget.
  - destruct (keywordFilters config) as [|f fs] eqn:Hfilters.
    + (* the record has no filter: the early return *)
      done.
    + (* keywords.length = 0 and messageTypes.length = 0 *)
      done.
  - (* no record *)
    done.
Qed.

(** C10: a successful partialUnsubscribe that leaves at least one filter
    writes the record back under the channelId it was stored with: the store
    afterwards is the store before with this user's record replaced by the
    old channelId and the remaining filters.  [subscribe], in contrast,
    stores the caller's channelId. *)
Theorem partialUnsubscribe_keeps_channel
    lower db userId keywords requestedTypes config :
  getSubscriber db userId = Some config →
  success (partialUnsubscribe lower db userId keywords requestedTypes).2
  = true →
  (0 < remainingCount
         (partialUnsubscribe lower db userId keywords requestedTypes).2)%nat →
  (partialUnsubscribe lower db userId keywords requestedTypes).1
  = <[userId :=
        mkConfig (channelId config)
          (remainingFilters
             (partialUnsubscribe lower db userId keywords requestedTypes).2)]>
      db
  ∧ (channelId <$>
       getSubscriber
         (partialUnsubscribe lower db userId keywords requestedTypes).1 userId)
    = Some (channelId config)
  ∧ ∀ request,
      channelId <$>
        getSubscriber (subscribe lower db request).1 (req_userId request)
      = Some (req_channelId request).
Proof.
  intros Hget Hsuccess Hcount.
  assert (∀ request,
    channelId <$>
      getSubscriber (subscribe lower db request).1 (req_userId request)
    = Some (req_channelId request)) as Hsub.
  { intros request.
    destruct (subscribe_stores lower db request) as [-> <-]. done. }
  assert ((partialUnsubscribe lower db userId keywords requestedTypes).1
          = <[userId :=
                mkConfig (channelId config)
                  (remainingFilters
                     (partialUnsubscribe lower db userId keywords
                        requestedTypes).2)]> db) as Hstore.
  { destruct (keywordFilters config) as [|f fs] eqn:Efs.
    { unfold partialUnsubscribe in Hsuccess. by rewrite Hget, Efs in Hsuccess. }
    destruct (decide (keywords = [] ∧ requestedTypes = [])) as [[-> ->]|Hreq].
    { by rewrite partialUnsubscribe_no_request in Hsuccess. }
    assert (keywords ≠ [] ∨ requestedTypes ≠ []) as Hreq'.
    { destruct keywords; [|by left]. destruct requestedTypes; [|by right].
      by destruct Hreq. }
    rewrite (partialUnsubscribe_run lower db userId keywords requestedTypes
               config Hget) in * by (done || by rewrite Efs).
    simpl in *.
    destruct (negb (hasChanges _)); [done|].
    destruct (length _ =? 0)%nat; [simpl in Hcount; lia | done]. }
  split_and!; [done | | done].
  rewrite Hstore. unfold getSubscriber. by rewrite lookup_insert_eq.
Qed.

Lemma partialUnsubscribe_keeps_channel_witness :
  let config :=
    mkConfig "channel1"
      [mkFilter "劍" ["buy"; "sell"]; mkFilter "盾" ["buy"; "sell"]] in
  let db : gmap string SubscriberConfig := {["user1" := config]} in
  let out := partialUnsubscribe asciiLower db "user1" ["劍"] ["buy"] in
  getSubscriber db "user1" = Some config
  ∧ success out.2 = true
  ∧ (0 < remainingCount out.2)%nat
  ∧ (channelId <$> getSubscriber out.1 "user1") = Some "channel1".
Proof.
  intros config db out.
  assert (getSubscriber db "user1" = Some config) as Hget
    by (vm_compute; reflexivity).
  assert (success out.2 = true) as Hsuccess by (vm_compute; reflexivity).
  assert (0 < remainingCount out.2)%nat as Hcount by (vm_compute; lia).
  split_and!; [done | done | done |].
  exact (proj1 (proj2 (partialUnsubscribe_keeps_channel asciiLower db "user1"
                         ["劍"] ["buy"] config Hget Hsuccess Hcount))).
Defined.

(** C7: for a user with a record, a filter the request aims at and whose
    message types are all among the requested ones is removed from the
    remaining sequence (what remains is what remains of the filters before
    it followed by what remains of the filters after it) and the call
    succeeds; and when the call leaves no filter at all, the record is
    deleted from the store and the result reports success with
    remainingCount 0. *)
Theorem partialUnsubscribe_removes_emptied
    lower db userId keywords requestedTypes config :
  getSubscriber db userId = Some config →
  let callback := removalCallback lower keywords requestedTypes in
  let out := partialUnsubscribe lower db userId keywords requestedTypes in
  (∀ l1 f l2,
     keywordFilters config = l1 ++ f :: l2 →
     requestedTypes ≠ [] →
     targeted lower keywords f →
     (∀ t, t ∈ messageTypes f → t ∈ requestedTypes) →
     success out.2 = true
     ∧ remainingFilters out.2
       = remainingOf callback l1 ++ remainingOf callback l2
     ∧ remainingCount out.2 = length (remainingFilters out.2))
  ∧ (keywordFilters config ≠ [] →
     keywords ≠ [] ∨ requestedTypes ≠ [] →
     remainingOf callback (keywordFilters config) = [] →
     success out.2 = true
     ∧ remainingCount out.2 = 0%nat
     ∧ remainingFilters out.2 = []
     ∧ out.1 = delete userId db
     ∧ getSubscriber out.1 userId = None).
Proof.
  intros Hget callback out. subst callback out.
  pose proof (removalCallback_steady lower keywords requestedTypes) as Hsteady.
  split.
  - intros l1 f l2 Hsplit Htypes Htarget Hall.
    assert (keywordFilters config ≠ []) as Hne
      by (rewrite Hsplit; by destruct l1).
    rewrite (partialUnsubscribe_run lower db userId keywords requestedTypes
               config Hget Hne) by (by right).
    simpl. rewrite Hsplit.
    rewrite (mapFilters_dropped_changes _ Hsteady l1 f l2)
      by (by apply removalCallback_emptied).
    rewrite (mapFilters_output _ Hsteady), (remainingOf_app _ Hsteady).
    rewrite (remainingOf_cons _ Hsteady f l2).
    rewrite removalCallback_emptied by done.
    simpl. destruct (remainingOf _ l1 ++ remainingOf _ l2); done.
  - intros Hne Hreq Hempty.
    rewrite (partialUnsubscribe_run lower db userId keywords requestedTypes
               config Hget Hne Hreq).
    simpl.
    destruct (hasChanges (mapFilters _ (keywordFilters config) _).2)
      eqn:Echanges.
    + rewrite (mapFilters_output _ Hsteady), Hempty. simpl.
      split_and!; try done. apply lookup_delete_eq.
    + apply (mapFilters_unchanged _ Hsteady) in Echanges.
      rewrite (mapFilters_output _ Hsteady), Hempty in Echanges. done.
Qed.

Lemma partialUnsubscribe_removes_emptied_witness :
  let config :=
    mkConfig "channel1" [mkFilter "劍" ["buy"; "sell"]; mkFilter "盾" ["buy"]] in
  let last := mkConfig "channel1" [mkFilter "劍" ["buy"]] in
  let db1 : gmap string SubscriberConfig := {["user1" := config]} in
  let db2 : gmap string SubscriberConfig := {["user1" := last]} in
  let out1 := partialUnsubscribe asciiLower db1 "user1" [] ["buy"] in
  let out2 := partialUnsubscribe asciiLower db2 "user1" ["劍"] ["buy"] in
  (success out1.2 = true
   ∧ remainingFilters out1.2
     = remainingOf (removalCallback asciiLower [] ["buy"])
         [mkFilter "劍" ["buy"; "sell"]]
       ++ remainingOf (removalCallback asciiLower [] ["buy"]) []
   ∧ remainingCount out1.2 = length (remainingFilters out1.2))
  ∧ (success out2.2 = true
     ∧ remainingCount out2.2 = 0%nat
     ∧ remainingFilters out2.2 = []
     ∧ out2.1 = delete "user1" db2
     ∧ getSubscriber out2.1 "user1" = None).
Proof.
  intros config last db1 db2 out1 out2.
  split.
  - refine (proj1 (partialUnsubscribe_removes_emptied asciiLower db1 "user1"
                     [] ["buy"] config _)
              [mkFilter "劍" ["buy"; "sell"]] (mkFilter "盾" ["buy"]) []
              _ _ _ _).
    + vm_compute; reflexivity.
    + reflexivity.
    + discriminate.
    + by left.
    + intros t Ht. exact Ht.
  - refine (proj2 (partialUnsubscribe_removes_emptied asciiLower db2 "user1"
                     ["劍"] ["buy"] last _) _ _ _).
    + vm_compute; reflexivity.
    + discriminate.
    + left. discriminate.
    + vm_compute; reflexivity.
Defined.

(** ** The uniqueness invariant *)

(** [partialUnsubscribe] keeps a record unique by lower-cased keyword when
    it was, in what it returns and in what it stores. *)
Lemma partialUnsubscribe_unique lower db userId keywords requestedTypes :
  unique_ci lower (currentFilters db userId) →
  unique_ci lower
    (remainingFilters
       (partialUnsubscribe lower db userId keywords requestedTypes).2)
  ∧ unique_ci lower
      (currentFilters
         (partialUnsubscribe lower db userId keywords requestedTypes).1
         userId).
Proof.
  unfold currentFilters. intros Huniq.
  destruct (getSubscriber db userId) as [config|] eqn:Hget.
  2: { unfold partialUnsubscribe. rewrite Hget. simpl. by rewrite Hget. }
  destruct (keywordFilters config) as [|f fs] eqn:Efs.
  { unfold partialUnsubscribe. rewrite Hget, Efs. simpl.
    by rewrite Hget, Efs. }
  destruct (decide (keywords = [] ∧ requestedTypes = [])) as [[-> ->]|Hreq].
  { rewrite partialUnsubscribe_no_request. unfold currentFilters. simpl.
    by rewrite Hget, Efs. }
  assert (keywords ≠ [] ∨ requestedTypes ≠ []) as Hreq'.
  { destruct keywords; [|by left]. destruct requestedTypes; [|by right].
    by destruct Hreq. }
  pose proof (removalCallback_steady lower keywords requestedTypes) as Hsteady.
  rewrite (partialUnsubscribe_run lower db userId keywords requestedTypes
             config Hget) by (done || by rewrite Efs).
  simpl. rewrite (mapFilters_output _ Hsteady).
  pose proof (remainingOf_unique _ Hsteady lower (keywordFilters config)) as Hrem.
  rewrite Efs in *. specialize (Hrem Huniq).
  destruct (negb (hasChanges _)); [|destruct (length _ =? 0)%nat]; simpl.
  - by rewrite Hget, Efs.
  - unfold getSubscriber. rewrite lookup_delete_eq.
    split; apply NoDup_nil_2.
  - unfold getSubscriber. by rewrite lookup_insert_eq.
Qed.

(** When [subscribe] creates the record, the request is stored as given. *)
Lemma subscribe_create_as_given lower db request :
  getSubscriber db (req_userId request) = None →
  currentFilters (subscribe lower db request).1 (req_userId request)
  = req_keywordFilters request.
Proof.
  intros H. rewrite subscribe_absent by done. unfold currentFilters. simpl.
  unfold getSubscriber. by rewrite lookup_insert_eq.
Qed.

(** C1 (no two entries of a record with equal lower-cased keywords, also
    for a record that subscribe creates from a request repeating a keyword):
    the create path of the code does not keep it.  For a user with no
    record, the request Sword/[buy], sword/[buy] is stored and returned as
    given, two entries with the lower-cased keyword sword, whereas the same
    request on an existing record is merged into one entry. *)
Theorem subscribe_create_keeps_repeated_keyword :
  let filters := [mkFilter "Sword" ["buy"]; mkFilter "sword" ["buy"]] in
  let request := mkRequest "user1" "channel1" filters in
  let created := subscribe asciiLower ∅ request in
  let merged := subscribe asciiLower created.1 request in
  getSubscriber created.1 "user1" = Some (mkConfig "channel1" filters)
  ∧ keywordFilters created.2 = filters
  ∧ ¬ unique_ci asciiLower (currentFilters created.1 "user1")
  ∧ keywordFilters merged.2 = [mkFilter "Sword" ["buy"]].
Proof.
  intros filters request created merged.
  split_and!; [by vm_compute | by vm_compute | | by vm_compute].
  intros Huniq.
  assert (currentFilters created.1 "user1" = filters) as E by (by vm_compute).
  rewrite E in Huniq. unfold unique_ci in Huniq. vm_compute in Huniq.
  apply NoDup_cons in Huniq as [Hhead _]. apply Hhead. by left.
Qed.

(** ** Fan-out *)

Lemma pushUser_channels groups channelId entry c :
  c ∈ (pushUser groups channelId entry).*1 → c ∈ groups.*1 ∨ c = channelId.
Proof.
  induction groups as [|[c' users] groups IH]; simpl.
  - intros ->%list_elem_of_singleton. by right.
  - destruct (String.eqb c' channelId) eqn:E; simpl.
    + intros H. by left.
    + rewrite !elem_of_cons. intros [->|H]; [by left; left|].
      destruct (IH H); [left; by right | by right].
Qed.

(** A record without filters never contributes a channel: no reason is ever
    collected for it. *)
Lemma groupSubscribers_skips_empty lower payload subscribers c :
  (∀ userId config, (userId, config) ∈ subscribers →
     channelId config = c → keywordFilters config = []) →
  c ∉ (groupSubscribers lower payload subscribers).*1.
Proof.
  unfold groupSubscribers.
  assert (∀ groups : list (string * list (string * string)),
            c ∉ groups.*1 →
            (∀ userId config, (userId, config) ∈ subscribers →
               channelId config = c → keywordFilters config = []) →
            c ∉ (fold_left
                   (fun groups '(userId, userConfig) =>
                      let reasons :=
                        matchedReasons lower payload
                          (keywordFilters userConfig) in
                      if (0 <? length reasons)%nat
                      then pushUser groups (channelId userConfig)
                             (userId, join ", " reasons)
                      else groups) subscribers groups).*1) as Hfold.
  { induction subscribers as [|[u config] subscribers IH];
      intros groups Hout Hempty; [done|].
    simpl. apply IH.
    - destruct (0 <? length _)%nat eqn:E; [|done].
      intros [Hin|Heq]%pushUser_channels; [done|].
      rewrite (Hempty u config) in E; [done | by left | done].
    - intros u' config' Hin. apply (Hempty u'). by right. }
  intros Hempty. apply Hfold; [|done]. simpl. apply not_elem_of_nil.
Qed.

Lemma broadcastToDiscord_skips_empty lower db payload c :
  (∀ userId config, getSubscriber db userId = Some config →
     channelId config = c → keywordFilters config = []) →
  c ∉ (broadcastToDiscord lower db payload).*1.
Proof.
  intros Hempty. unfold broadcastToDiscord.
  rewrite <- list_fmap_compose.
  erewrite (list_fmap_ext _ fst) by (by intros ? [? ?] ?).
  apply groupSubscribers_skips_empty. intros u config Hin.
  apply (Hempty u). by apply elem_of_map_to_list in Hin.
Qed.

(** Counterexample to C2 as stated (a user who subscribed with an empty
    keyword list receives every broadcast): in the scenario of the
    specification, A subscribed to the keywords 劍 and 盾 with type buy and B
    with an empty list; B's record is created with no filter, and a buy
    event whose content contains 劍 goes to A's channel only, with A's reason
    text; B's channel is not in the fan-out. *)
Theorem broadcast_skips_empty_subscription :
  let requestA :=
    mkRequest "userA" "channelA"
      [mkFilter "劍" ["buy"]; mkFilter "盾" ["buy"]] in
  let requestB := mkRequest "userB" "channelB" [] in
  let db :=
    (subscribe asciiLower (subscribe asciiLower ∅ requestA).1 requestB).1 in
  let event := mkPayload "buy" "CH1" "Seller" "12345" "收 劍 100雪" in
  getSubscriber db "userB" = Some (mkConfig "channelB" [])
  ∧ broadcastToDiscord asciiLower db event
    = [("channelA", "<@userA> - 劍 (收購)")]
  ∧ "channelB" ∉ (broadcastToDiscord asciiLower db event).*1.
Proof.
  intros requestA requestB db event.
  assert (broadcastToDiscord asciiLower db event
          = [("channelA", "<@userA> - 劍 (收購)")]) as E by (by vm_compute).
  split_and!; [by vm_compute | done |].
  rewrite E. simpl. intros [=]%list_elem_of_singleton.
Qed.

(** * Further properties of the code *)

(** ** mergeKeywordFilters: what the result holds *)

Section MergeMore.
Variable lower : string → string.

Lemma elem_of_ref_types fs k t :
  t ∈ ref_types lower fs k
  ↔ ∃ f, f ∈ fs ∧ lower (keyword f) = k ∧ t ∈ messageTypes f.
Proof.
  induction fs as [|f fs IH].
  - unfold ref_types. simpl. split; [set_solver|].
    intros (f & Hf & _). by apply elem_of_nil in Hf.
  - rewrite ref_types_cons, elem_of_union, IH. split.
    + intros [Hhead|(g & Hg & Hk & Ht)].
      * case_decide; [|set_solver]. exists f.
        split_and!; [by left | done | by apply elem_of_list_to_set in Hhead].
      * exists g. split_and!; [by right | done | done].
    + intros (g & [->|Hg]%elem_of_cons & Hk & Ht).
      * left. rewrite decide_True by done. by apply elem_of_list_to_set.
      * right. by exists g.
Qed.

Lemma first_seen_length seen fs :
  (length (first_seen lower seen fs) ≤ length fs)%nat.
Proof.
  revert seen. induction fs as [|f fs IH]; intros seen; simpl; [done|].
  case_decide; simpl.
  - specialize (IH seen). lia.
  - specialize (IH ({[lower (keyword f)]} ∪ seen)). lia.
Qed.

(** Every lower-cased keyword of [fs] is in [seen] or introduced by one
    of the first-seen filters. *)
Lemma first_seen_covers seen fs f :
  f ∈ fs →
  lower (keyword f) ∈ seen
  ∨ ∃ g, g ∈ first_seen lower seen fs
         ∧ lower (keyword g) = lower (keyword f).
Proof.
  revert seen. induction fs as [|h fs IH]; intros seen Hf.
  - by apply elem_of_nil in Hf.
  - simpl. apply elem_of_cons in Hf as [->|Hf].
    + case_decide; [by left|]. right. exists h. split; [by left | done].
    + case_decide as Hin.
      * apply IH, Hf.
      * destruct (IH ({[lower (keyword h)]} ∪ seen) Hf)
          as [[Heq%elem_of_singleton|Hs]%elem_of_union|(g & Hg & Hk)].
        -- right. exists h. split; [by left | done].
        -- by left.
        -- right. exists g. split; [by right | done].
Qed.

(** The message types of an output entry, as a set. *)
Lemma merge_entry_types existing newFilters g :
  g ∈ mergeKeywordFilters lower existing newFilters →
  (∃ f, f ∈ existing ++ newFilters ∧ keyword g = keyword f)
  ∧ list_to_set (C := gset string) (messageTypes g)
    = ref_types lower (existing ++ newFilters) (lower (keyword g)).
Proof.
  rewrite mergeKeywordFilters_first_seen.
  intros (f & -> & Hf)%list_elem_of_fmap.
  apply first_seen_fresh in Hf as [Hf _]. split; [by exists f|].
  unfold entry_of. simpl.
  by rewrite keywordMap_types, ref_types_app.
Qed.
End MergeMore.

(** X1: whatever the stored filters and the request hold, the merged
    sequence has no two entries with the same lower-cased keyword, no entry
    lists a message type twice, and it is no longer than the two inputs
    together. *)
Theorem merge_result_normalised lower existing newFilters :
  unique_ci lower (mergeKeywordFilters lower existing newFilters)
  ∧ Forall (fun f => NoDup (messageTypes f))
      (mergeKeywordFilters lower existing newFilters)
  ∧ (length (mergeKeywordFilters lower existing newFilters)
     ≤ length existing + length newFilters)%nat.
Proof.
  split_and!.
  - apply mergeKeywordFilters_unique.
  - apply mergeKeywordFilters_types_NoDup.
  - rewrite mergeKeywordFilters_first_seen, length_fmap, <- length_app.
    apply first_seen_length.
Qed.

Lemma merge_keeps lower existing newFilters f t :
  f ∈ existing ++ newFilters →
  t ∈ messageTypes f →
  ∃ g, g ∈ mergeKeywordFilters lower existing newFilters
       ∧ lower (keyword g) = lower (keyword f)
       ∧ t ∈ messageTypes g.
Proof.
  intros Hf Ht.
  destruct (first_seen_covers lower ∅ _ f Hf) as [Hin|(h & Hh & Hk)];
    [set_solver|].
  assert (entry_of lower
            (fold_left (accumulate lower) newFilters
               (fold_left (accumulate lower) existing ∅)) h
          ∈ mergeKeywordFilters lower existing newFilters) as Hg.
  { rewrite mergeKeywordFilters_first_seen.
    apply list_elem_of_fmap. by exists h. }
  eexists. split; [exact Hg|]. split; [done|].
  apply merge_entry_types in Hg as [_ Htypes].
  apply (elem_of_list_to_set (C := gset string)). rewrite Htypes.
  apply elem_of_ref_types. exists f. simpl. by rewrite Hk.
Qed.

(** X2: the merge loses nothing: a message type that an existing or a
    requested filter gives to a keyword is, after the merge, a message type
    of the entry with the same lower-cased keyword. *)
Theorem merge_keeps_every_type lower existing newFilters f t :
  f ∈ existing ++ newFilters →
  t ∈ messageTypes f →
  ∃ g, g ∈ mergeKeywordFilters lower existing newFilters
       ∧ lower (keyword g) = lower (keyword f)
       ∧ t ∈ messageTypes g.
Proof.
  intros Hf Ht.
  destruct (merge_keeps lower existing newFilters f t Hf Ht)
    as (g & Hg & Hkey & Htype).
  exists g. by split_and!.
Qed.

Lemma merge_keeps_every_type_witness :
  let existing := [mkFilter "Sword" ["buy"]] in
  let newFilters := [mkFilter "sword" ["sell"]] in
  ∃ g, g ∈ mergeKeywordFilters asciiLower existing newFilters
       ∧ asciiLower (keyword g) = asciiLower "sword"
       ∧ "sell" ∈ messageTypes g.
Proof.
  intros existing newFilters.
  apply (merge_keeps_every_type asciiLower existing newFilters
           (mkFilter "sword" ["sell"]) "sell").
  - right. by left.
  - by left.
Defined.

(** X3: the merge invents nothing: the keyword of an output entry is, in
    its casing, the keyword of an existing or requested filter, and each of
    its message types comes from an existing or requested filter with the
    same lower-cased keyword. *)
Theorem merge_invents_nothing lower existing newFilters g :
  g ∈ mergeKeywordFilters lower existing newFilters →
  (∃ f, f ∈ existing ++ newFilters ∧ keyword g = keyword f)
  ∧ ∀ t, t ∈ messageTypes g →
         ∃ f, f ∈ existing ++ newFilters
              ∧ lower (keyword f) = lower (keyword g)
              ∧ t ∈ messageTypes f.
Proof.
  intros Hg. apply merge_entry_types in Hg as [Hkey Htypes].
  split; [done|]. intros t Ht. apply elem_of_ref_types.
  rewrite <- Htypes. by apply elem_of_list_to_set.
Qed.

Lemma merge_invents_nothing_witness :
  let existing := [mkFilter "Sword" ["buy"]; mkFilter "Axe" []] in
  let newFilters := [mkFilter "sword" ["sell"]] in
  mergeKeywordFilters asciiLower existing newFilters
  = [mkFilter "Sword" ["buy"; "sell"]; mkFilter "Axe" []]
  ∧ (∃ f, f ∈ existing ++ newFilters ∧ "Axe" = keyword f)
  ∧ ∀ t, t ∈ ["buy"; "sell"] →
         ∃ f, f ∈ existing ++ newFilters
              ∧ asciiLower (keyword f) = asciiLower "Sword"
              ∧ t ∈ messageTypes f.
Proof.
  intros existing newFilters.
  assert (mergeKeywordFilters asciiLower existing newFilters
          = [mkFilter "Sword" ["buy"; "sell"]; mkFilter "Axe" []]) as Hmerge
    by (vm_compute; reflexivity).
  split; [exact Hmerge|]. split.
  - apply (merge_invents_nothing asciiLower existing newFilters
             (mkFilter "Axe" [])).
    rewrite Hmerge. right. by left.
  - apply (merge_invents_nothing asciiLower existing newFilters
             (mkFilter "Sword" ["buy"; "sell"])).
    rewrite Hmerge. by left.
Defined.

(** ** mergeKeywordFilters: when nothing changes *)

Section MergeExact.
Variable lower : string → string.

Lemma fold_set_add_fresh ts s :
  NoDup (s ++ ts) → fold_left set_add ts s = s ++ ts.
Proof.
  revert s. induction ts as [|t ts IH]; intros s Hnd; simpl.
  - by rewrite app_nil_r.
  - assert (set_add s t = s ++ [t]) as ->.
    { unfold set_add. rewrite (proj2 (arr_includes_false s t)); [done|].
      apply NoDup_app in Hnd as (_ & Hdisj & _). intros Hin.
      apply (Hdisj t Hin). by left. }
    rewrite IH; rewrite <- app_assoc; done.
Qed.

Lemma fold_set_add_absorb ts s :
  (∀ t, t ∈ ts → t ∈ s) → fold_left set_add ts s = s.
Proof.
  induction ts as [|t ts IH]; intros Hall; simpl; [done|].
  assert (set_add s t = s) as ->.
  { unfold set_add. rewrite (proj2 (arr_includes_true s t)); [done|].
    apply Hall. by left. }
  apply IH. intros t' Ht'. apply Hall. by right.
Qed.

(** Filters with other keywords leave the entry of [k] alone. *)
Lemma accumulate_other fs (m : gmap string (list string)) k :
  (∀ g, g ∈ fs → lower (keyword g) ≠ k) →
  fold_left (accumulate lower) fs m !! k = m !! k.
Proof.
  revert m. induction fs as [|h fs IH]; intros m Hother; simpl; [done|].
  rewrite IH by (intros g Hg; apply Hother; by right).
  rewrite accumulate_lookup, decide_False; [done|].
  apply Hother. by left.
Qed.

(** Filters that bring no new type leave the entry of [k] alone. *)
Lemma accumulate_absorb fs (m : gmap string (list string)) k s :
  m !! k = Some s →
  (∀ g t, g ∈ fs → lower (keyword g) = k → t ∈ messageTypes g → t ∈ s) →
  fold_left (accumulate lower) fs m !! k = Some s.
Proof.
  revert m. induction fs as [|h fs IH]; intros m Hm Hall; simpl; [done|].
  apply IH; [|intros g t Hg; apply Hall; by right].
  rewrite accumulate_lookup. case_decide as Hk; [|done].
  rewrite Hm. simpl. f_equal. apply fold_set_add_absorb.
  intros t Ht. apply (Hall h t); [by left | done | done].
Qed.

(** In a sequence unique by lower-cased keyword each filter fills its own
    entry, with its own types in their order. *)
Lemma accumulated_exact fs (m : gmap string (list string)) f :
  unique_ci lower fs →
  f ∈ fs →
  m !! lower (keyword f) = None →
  NoDup (messageTypes f) →
  fold_left (accumulate lower) fs m !! lower (keyword f)
  = Some (messageTypes f).
Proof.
  unfold unique_ci. revert m.
  induction fs as [|h fs IH]; intros m Huniq Hf Hm Hnd.
  - by apply elem_of_nil in Hf.
  - simpl in *. apply NoDup_cons in Huniq as [Hh Huniq].
    apply elem_of_cons in Hf as [->|Hf].
    + rewrite accumulate_other.
      * rewrite accumulate_lookup, decide_True, Hm by done. simpl.
        f_equal. by apply (fold_set_add_fresh _ []).
      * intros g Hg Heq. apply Hh. rewrite <- Heq.
        apply list_elem_of_fmap. by exists g.
    + apply IH; [done | done | | done].
      rewrite accumulate_lookup, decide_False; [done|].
      intros Heq. apply Hh. rewrite Heq.
      apply list_elem_of_fmap. by exists f.
Qed.

Lemma first_seen_nil seen fs :
  (∀ f, f ∈ fs → lower (keyword f) ∈ seen) → first_seen lower seen fs = [].
Proof.
  induction fs as [|f fs IH]; intros Hall; simpl; [done|].
  rewrite decide_True by (apply Hall; by left).
  apply IH. intros g Hg. apply Hall. by right.
Qed.

Lemma first_seen_all fs :
  unique_ci lower fs → first_seen lower ∅ fs = fs.
Proof.
  intros Huniq. rewrite first_seen_of_unique by done.
  induction fs as [|f fs IH]; [done|]. simpl.
  rewrite bool_decide_eq_true_2 by set_solver. f_equal.
  apply IH. by apply NoDup_cons in Huniq as [_ ?].
Qed.

Lemma fmap_fixed (h : KeywordFilter → KeywordFilter)
    (fs : list KeywordFilter) :
  (∀ f, f ∈ fs → h f = f) → h <$> fs = fs.
Proof.
  induction fs as [|f fs IH]; intros Hall; [done|].
  rewrite fmap_cons, Hall by (by left). f_equal.
  apply IH. intros g Hg. apply Hall. by right.
Qed.

Lemma merge_covers_keys existing newFilters f :
  f ∈ existing ++ newFilters →
  lower (keyword f)
  ∈ lowered_keys lower (mergeKeywordFilters lower existing newFilters).
Proof.
  intros Hf.
  destruct (first_seen_covers lower ∅ _ f Hf) as [Hin|(h & Hh & Hk)];
    [set_solver|].
  unfold lowered_keys. apply elem_of_list_to_set, list_elem_of_fmap.
  rewrite mergeKeywordFilters_first_seen.
  eexists. split; [|apply list_elem_of_fmap; by exists h]. done.
Qed.
End MergeExact.

(** X4: on inputs that together are already unique by lower-cased keyword
    and list no message type twice, the merge is the existing sequence
    followed by the request, entries and type order untouched; in
    particular merging an empty request returns the record's filters. *)
Theorem merge_of_normalised lower existing newFilters :
  unique_ci lower (existing ++ newFilters) →
  Forall (fun f => NoDup (messageTypes f)) (existing ++ newFilters) →
  mergeKeywordFilters lower existing newFilters = existing ++ newFilters.
Proof.
  intros Huniq Hnd.
  rewrite mergeKeywordFilters_first_seen, first_seen_all by done.
  apply fmap_fixed. intros f Hf. unfold entry_of.
  rewrite <- fold_left_app, (accumulated_exact lower _ ∅ f); try done.
  - by destruct f.
  - by apply (proj1 (Forall_forall _ _) Hnd).
Qed.

Lemma merge_of_normalised_witness :
  let existing := [mkFilter "劍" ["buy"; "sell"]; mkFilter "盾" ["sell"]] in
  mergeKeywordFilters asciiLower existing [] = existing ++ [].
Proof.
  intros existing.
  apply (merge_of_normalised asciiLower existing []).
  - unfold unique_ci. vm_compute. repeat constructor; set_solver.
  - repeat constructor; set_solver.
Defined.

Lemma merge_again lower existing newFilters :
  mergeKeywordFilters lower
    (mergeKeywordFilters lower existing newFilters) newFilters
  = mergeKeywordFilters lower existing newFilters.
Proof.
  set (r := mergeKeywordFilters lower existing newFilters).
  assert (unique_ci lower r) as Huniq by apply mergeKeywordFilters_unique.
  pose proof (mergeKeywordFilters_types_NoDup lower existing newFilters)
    as Hnd. fold r in Hnd.
  rewrite mergeKeywordFilters_first_seen, first_seen_app.
  rewrite first_seen_all by done.
  rewrite (first_seen_nil lower _ newFilters).
  2: { intros f Hf. apply elem_of_union. right.
       apply merge_covers_keys, elem_of_app. by right. }
  rewrite app_nil_r. apply fmap_fixed. intros g Hg. unfold entry_of.
  rewrite (accumulate_absorb lower newFilters _ _ (messageTypes g)).
  - by destruct g.
  - apply accumulated_exact; try done.
    by apply (proj1 (Forall_forall _ _) Hnd).
  - intros h t Hh Hk Ht.
    apply merge_entry_types in Hg as [_ Htypes].
    apply (elem_of_list_to_set (C := gset string)). rewrite Htypes.
    apply elem_of_ref_types. exists h.
    split_and!; [apply elem_of_app; by right | done | done].
Qed.

(** X5: merging a request into the result of its own merge returns that
    result; hence, for a user who already has a record, sending the same
    subscribe a second time leaves the store and the returned
    configuration as the first one left them. *)
Theorem subscribe_again_changes_nothing lower db request existingConfig :
  getSubscriber db (req_userId request) = Some existingConfig →
  mergeKeywordFilters lower
    (mergeKeywordFilters lower (keywordFilters existingConfig)
       (req_keywordFilters request))
    (req_keywordFilters request)
  = mergeKeywordFilters lower (keywordFilters existingConfig)
      (req_keywordFilters request)
  ∧ subscribe lower (subscribe lower db request).1 request
    = subscribe lower db request.
Proof.
  intros Hget. split; [apply merge_again|].
  rewrite (subscribe_existing lower db request existingConfig Hget).
  cbn [fst].
  rewrite (subscribe_existing lower _ request
             (mkConfig (req_channelId request)
                (mergeKeywordFilters lower (keywordFilters existingConfig)
                   (req_keywordFilters request))))
    by apply lookup_insert_eq.
  cbn [keywordFilters]. rewrite merge_again, insert_insert_eq. done.
Qed.

Lemma subscribe_again_changes_nothing_witness :
  let existingConfig := mkConfig "channel1" [mkFilter "Sword" ["buy"]] in
  let db : gmap string SubscriberConfig := {["user1" := existingConfig]} in
  let request :=
    mkRequest "user1" "channel2"
      [mkFilter "sword" ["sell"]; mkFilter "Shield" ["buy"];
       mkFilter "shield" ["sell"]] in
  subscribe asciiLower (subscribe asciiLower db request).1 request
  = subscribe asciiLower db request.
Proof.
  intros existingConfig db request.
  apply (subscribe_again_changes_nothing asciiLower db request existingConfig).
  vm_compute. reflexivity.
Defined.

(** ** subscribe, unsubscribe, getSubscription, isSubscribed *)

(** X6: for a user without a record, subscribe followed by getSubscription
    returns the caller's channel with the requested filters exactly as
    given, and the user then counts as subscribed. *)
Theorem subscribe_new_round_trip lower db request :
  getSubscriber db (req_userId request) = None →
  getSubscription (subscribe lower db request).1 (req_userId request)
  = Some (mkConfig (req_channelId request) (req_keywordFilters request))
  ∧ (subscribe lower db request).2
    = mkConfig (req_channelId request) (req_keywordFilters request)
  ∧ isSubscribed (subscribe lower db request).1 (req_userId request) = true.
Proof.
  intros Habsent. rewrite subscribe_absent by done. simpl.
  unfold getSubscription, isSubscribed, getSubscriber.
  by rewrite lookup_insert_eq.
Qed.

Lemma subscribe_new_round_trip_witness :
  let request := mkRequest "user1" "channel1" [mkFilter "劍" ["sell"]] in
  getSubscription (subscribe asciiLower ∅ request).1 "user1"
  = Some (mkConfig "channel1" [mkFilter "劍" ["sell"]])
  ∧ (subscribe asciiLower ∅ request).2
    = mkConfig "channel1" [mkFilter "劍" ["sell"]]
  ∧ isSubscribed (subscribe asciiLower ∅ request).1 "user1" = true.
Proof.
  intros request.
  apply (subscribe_new_round_trip asciiLower ∅ request). apply lookup_empty.
Defined.

(** X7: unsubscribe returns whether the user had a record; afterwards the
    user has none, and a second unsubscribe returns false and leaves the
    store as it is. *)
Theorem unsubscribe_removes db userId :
  (unsubscribe db userId).2 = isSubscribed db userId
  ∧ getSubscription (unsubscribe db userId).1 userId = None
  ∧ isSubscribed (unsubscribe db userId).1 userId = false
  ∧ unsubscribe (unsubscribe db userId).1 userId
    = ((unsubscribe db userId).1, false).
Proof.
  unfold unsubscribe, isSubscribed, getSubscription, getSubscriber,
    removeSubscriber.
  destruct (db !! userId) as [config|] eqn:Hget; simpl.
  - rewrite !lookup_delete_eq. done.
  - rewrite !Hget. done.
Qed.

(** X8: for a user without a record, subscribe followed by unsubscribe
    gives back the store as it was, and unsubscribe returns true. *)
Theorem subscribe_unsubscribe_restores lower db request :
  getSubscriber db (req_userId request) = None →
  unsubscribe (subscribe lower db request).1 (req_userId request)
  = (db, true).
Proof.
  intros Habsent. rewrite subscribe_absent by done. simpl.
  unfold unsubscribe, getSubscriber, removeSubscriber.
  rewrite lookup_insert_eq, delete_insert_eq. f_equal.
  by apply delete_id.
Qed.

Lemma subscribe_unsubscribe_restores_witness :
  let db : gmap string SubscriberConfig :=
    {["user2" := mkConfig "channel2" [mkFilter "盾" ["buy"]]]} in
  let request := mkRequest "user1" "channel1" [mkFilter "劍" ["sell"]] in
  unsubscribe (subscribe asciiLower db request).1 "user1" = (db, true).
Proof.
  intros db request.
  apply (subscribe_unsubscribe_restores asciiLower db request).
  vm_compute. reflexivity.
Defined.

(** X9: subscribe, unsubscribe and partialUnsubscribe for one user leave
    the record of every other user as it is. *)
Theorem other_users_untouched
    lower db request userId keywords requestedTypes other :
  other ≠ req_userId request → other ≠ userId →
  getSubscriber (subscribe lower db request).1 other = getSubscriber db other
  ∧ getSubscriber (unsubscribe db userId).1 other = getSubscriber db other
  ∧ getSubscriber
      (partialUnsubscribe lower db userId keywords requestedTypes).1 other
    = getSubscriber db other.
Proof.
  intros Hreq Huser. split_and!.
  - unfold subscribe. simpl. rewrite saveSubscriberWithFilters_insert.
    unfold getSubscriber. by rewrite lookup_insert_ne.
  - unfold unsubscribe, removeSubscriber, getSubscriber.
    destruct (db !! userId); simpl; [by rewrite lookup_delete_ne | done].
  - unfold partialUnsubscribe.
    destruct (getSubscriber db userId) as [config|] eqn:Hget; [|done].
    destruct (length (keywordFilters config) =? 0)%nat; [done|].
    assert (∀ run : list KeywordFilter * Effects,
      getSubscriber
        (let '(updatedFilters, st) := run in
         if negb (hasChanges st) then
           (db, mkResult false (length (keywordFilters config)) []
                  (keywordFilters config))
         else if (length updatedFilters =? 0)%nat then
           (removeSubscriber db userId, mkResult true 0 (pushed st) [])
         else
           (saveSubscriberWithFilters db userId (channelId config)
              updatedFilters false,
            mkResult true (length updatedFilters) (pushed st)
              updatedFilters)).1 other
      = getSubscriber db other) as Hfinish.
    { intros [updated st].
      destruct (negb (hasChanges st)); [done|].
      destruct (length updated =? 0)%nat; simpl.
      - unfold removeSubscriber, getSubscriber. by rewrite lookup_delete_ne.
      - rewrite saveSubscriberWithFilters_insert. unfold getSubscriber.
        by rewrite lookup_insert_ne. }
    destruct (0 <? length keywords)%nat; [apply Hfinish|].
    destruct (length requestedTypes =? 0)%nat; [done | apply Hfinish].
Qed.

Lemma other_users_untouched_witness :
  let db : gmap string SubscriberConfig :=
    {["user1" := mkConfig "channel1" [mkFilter "劍" ["buy"]]]} in
  let db := <["user2" := mkConfig "channel2" [mkFilter "盾" ["buy"]]]> db in
  let request := mkRequest "user1" "channel9" [mkFilter "斧" ["sell"]] in
  getSubscriber (subscribe asciiLower db request).1 "user2"
  = getSubscriber db "user2"
  ∧ getSubscriber (unsubscribe db "user1").1 "user2" = getSubscriber db "user2"
  ∧ getSubscriber (partialUnsubscribe asciiLower db "user1" ["劍"] []).1
      "user2"
    = getSubscriber db "user2".
Proof.
  intros db0 db request.
  apply (other_users_untouched asciiLower db request "user1" ["劍"] []
           "user2"); discriminate.
Defined.

(** ** partialUnsubscribe: what a call leaves *)

Lemma filter_sublist (P : string → bool) l : List.filter P l `sublist_of` l.
Proof.
  induction l as [|x l IH]; simpl; [done|].
  destruct (P x); [by apply sublist_skip | by apply sublist_cons].
Qed.

Lemma filter_full (P : string → bool) l :
  length (List.filter P l) = length l → List.filter P l = l.
Proof.
  induction l as [|x l IH]; simpl; [done|].
  destruct (P x); simpl; intros Hlen.
  - f_equal. apply IH. lia.
  - pose proof (sublist_length _ _ (filter_sublist P l)). lia.
Qed.

(** What [subtractTypes] returns when it returns a filter: the same keyword
    with the types that were not requested, of which there is one at
    least. *)
Lemma subtractTypes_kept requestedTypes f st g :
  (subtractTypes requestedTypes f st).1 = Some g →
  keyword g = keyword f
  ∧ messageTypes g
    = List.filter (fun type => negb (arr_includes requestedTypes type))
        (messageTypes f)
  ∧ messageTypes g ≠ [].
Proof.
  unfold subtractTypes.
  set (remaining := List.filter _ (messageTypes f)).
  destruct (length remaining =? 0)%nat eqn:E0; [done|].
  apply Nat.eqb_neq in E0.
  destruct (negb (length remaining =? length (messageTypes f))%nat) eqn:E1;
    simpl; intros [= <-]; simpl.
  - split_and!; [done | done | by destruct remaining].
  - apply negb_false_iff, Nat.eqb_eq, filter_full in E1.
    fold remaining in E1. rewrite <- E1.
    split_and!; [done | done | by destruct remaining].
Qed.

Lemma removalCallback_kept lower keywords requestedTypes f st g :
  keywords ≠ [] ∨ requestedTypes ≠ [] →
  (removalCallback lower keywords requestedTypes f st).1 = Some g →
  shrinks g f
  ∧ (targeted lower keywords g →
     requestedTypes ≠ [] ∧ messageTypes g ≠ []
     ∧ ∀ t, t ∈ messageTypes g → t ∉ requestedTypes).
Proof.
  intros Hreq.
  assert (∀ g, (subtractTypes requestedTypes f st).1 = Some g →
            shrinks g f
            ∧ messageTypes g ≠ []
            ∧ ∀ t, t ∈ messageTypes g → t ∉ requestedTypes) as Hsub.
  { intros g' (Hk & Ht & Hne)%subtractTypes_kept. unfold shrinks.
    rewrite Ht, Hk. split_and!; [done | apply filter_sublist | by rewrite <- Ht|].
    intros t Hin Hbad. apply list_elem_of_In, filter_In in Hin as [_ Hin].
    apply negb_true_iff, arr_includes_false in Hin. done. }
  unfold removalCallback, targeted.
  destruct keywords as [|k ks]; simpl.
  - intros (Hshr & Hne & Hall)%Hsub. split; [done|]. intros _.
    split_and!; [|done|done]. by destruct Hreq.
  - unfold keywordCallback.
    destruct (arr_includes _ (lower (keyword f))) eqn:Ein.
    + destruct (length requestedTypes =? 0)%nat eqn:Elen; [done|].
      intros (Hshr & Hne & Hall)%Hsub. split; [done|]. intros _.
      split_and!; [by destruct requestedTypes | done | done].
    + intros [= <-]. split; [split; done|].
      intros [?|Hin]; [done|].
      apply arr_includes_false in Ein. done.
Qed.

Lemma removalCallback_logs lower keywords requestedTypes :
  logs_changes (removalCallback lower keywords requestedTypes).
Proof.
  assert (logs_changes (subtractTypes requestedTypes)) as Hsub.
  { intros f st Hst. unfold subtractTypes.
    destruct (length _ =? 0)%nat; [|destruct (negb _)]; simpl;
      [intros _; by destruct (pushed st)
      |intros _; by destruct (pushed st) | done]. }
  unfold removalCallback. destruct (0 <? length keywords)%nat; [|done].
  intros f st Hst. unfold keywordCallback.
  destruct (arr_includes _ _); [|done].
  destruct (length requestedTypes =? 0)%nat; [|by apply Hsub].
  simpl. intros _. by destruct (pushed st).
Qed.

Section Outcome.
Variable callback : KeywordFilter → Effects → option KeywordFilter * Effects.
Hypothesis callback_steady : steady callback.

Lemma mapFilters_logs fs st :
  logs_changes callback →
  (hasChanges st = true → pushed st ≠ []) →
  hasChanges (mapFilters callback fs st).2 = true →
  pushed (mapFilters callback fs st).2 ≠ [].
Proof.
  intros Hlogs. revert st. induction fs as [|f fs IH]; intros st Hst; [done|].
  rewrite mapFilters_cons. simpl. apply IH. by apply Hlogs.
Qed.

Lemma remainingOf_Forall (P : KeywordFilter → Prop) fs :
  (∀ f st g, f ∈ fs → (callback f st).1 = Some g → P g) →
  Forall P (remainingOf callback fs).
Proof.
  induction fs as [|f fs IH]; intros Hcb.
  - constructor.
  - rewrite (remainingOf_cons _ callback_steady).
    assert (Forall P (remainingOf callback fs)) as Hrest
      by (apply IH; intros f' st g Hf'; apply Hcb; by right).
    destruct (callback f _).1 as [g|] eqn:E; [|done].
    constructor; [|done]. eapply Hcb; [by left | exact E].
Qed.

Lemma remainingOf_shrinks fs :
  (∀ f st g, (callback f st).1 = Some g → shrinks g f) →
  ∃ kept, kept `sublist_of` fs
          ∧ Forall2 shrinks (remainingOf callback fs) kept.
Proof.
  intros Hcb. induction fs as [|f fs (kept & Hsub & Hall)].
  - exists []. split; [done | constructor].
  - rewrite (remainingOf_cons _ callback_steady).
    destruct (callback f _).1 as [g|] eqn:E.
    + exists (f :: kept). split; [by apply sublist_skip|].
      constructor; [by eapply Hcb | done].
    + exists kept. split; [by apply sublist_cons | done].
Qed.
End Outcome.

(** What a call that ran the mapping loop returns and leaves. *)
Lemma partialUnsubscribe_outcome
    lower db userId keywords requestedTypes config :
  getSubscriber db userId = Some config →
  keywordFilters config ≠ [] →
  keywords ≠ [] ∨ requestedTypes ≠ [] →
  let callback := removalCallback lower keywords requestedTypes in
  let out := remainingOf callback (keywordFilters config) in
  let st :=
    (mapFilters callback (keywordFilters config) (mkEffects false [])).2 in
  let r := partialUnsubscribe lower db userId keywords requestedTypes in
  remainingFilters r.2 = out
  ∧ currentFilters r.1 userId = out
  ∧ remainingCount r.2 = length out
  ∧ success r.2 = hasChanges st
  ∧ removedItems r.2 = (if hasChanges st then pushed st else [])
  ∧ (hasChanges st = false → r.1 = db).
Proof.
  intros Hget Hne Hreq callback out st r. subst r st out callback.
  pose proof (removalCallback_steady lower keywords requestedTypes) as Hsteady.
  rewrite (partialUnsubscribe_run lower db userId keywords requestedTypes
             config Hget Hne Hreq).
  simpl. rewrite (mapFilters_output _ Hsteady).
  destruct (hasChanges (mapFilters _ _ _).2) eqn:Echanges; simpl.
  - unfold currentFilters, getSubscriber.
    destruct (length (remainingOf _ _) =? 0)%nat eqn:Elen; simpl.
    + rewrite lookup_delete_eq. apply Nat.eqb_eq in Elen.
      destruct (remainingOf _ _); [done | discriminate].
    + rewrite lookup_insert_eq. done.
  - apply (mapFilters_unchanged _ Hsteady) in Echanges.
    rewrite (mapFilters_output _ Hsteady) in Echanges.
    unfold currentFilters. rewrite Hget, Echanges. done.
Qed.

(** The calls that return before the mapping loop. *)
Lemma partialUnsubscribe_early (lower : string → string)
    db userId keywords requestedTypes :
  currentFilters db userId = [] ∨ (keywords = [] ∧ requestedTypes = []) →
  partialUnsubscribe lower db userId keywords requestedTypes
  = (db, mkResult false (length (currentFilters db userId)) []
           (currentFilters db userId)).
Proof.
  intros [Hempty|[-> ->]]; [|apply partialUnsubscribe_no_request].
  unfold partialUnsubscribe, currentFilters in *.
  destruct (getSubscriber db userId) as [config|]; [|done].
  by rewrite Hempty.
Qed.

(** Every call is of one of the two kinds. *)
Lemma partialUnsubscribe_kinds db userId (keywords requestedTypes : list string) :
  (currentFilters db userId = [] ∨ (keywords = [] ∧ requestedTypes = []))
  ∨ ∃ config,
      getSubscriber db userId = Some config
      ∧ keywordFilters config ≠ []
      ∧ (keywords ≠ [] ∨ requestedTypes ≠ []).
Proof.
  unfold currentFilters.
  destruct (getSubscriber db userId) as [config|]; [|by left; left].
  destruct (keywordFilters config) as [|f fs] eqn:E; [by left; left|].
  destruct keywords as [|k ks].
  - destruct requestedTypes as [|t ts]; [by left; right|].
    right. exists config. rewrite E. split_and!; [done | done | by right].
  - right. exists config. rewrite E. split_and!; [done | done | by left].
Qed.

(** X10: whatever the request, the result reports the filters the user has
    after the call: remainingFilters are the user's filters in the new store
    (none when the record is gone or was never there) and remainingCount is
    their number. *)
Theorem partialUnsubscribe_reports_store
    lower db userId keywords requestedTypes :
  currentFilters
    (partialUnsubscribe lower db userId keywords requestedTypes).1 userId
  = remainingFilters
      (partialUnsubscribe lower db userId keywords requestedTypes).2
  ∧ remainingCount
      (partialUnsubscribe lower db userId keywords requestedTypes).2
    = length
        (remainingFilters
           (partialUnsubscribe lower db userId keywords requestedTypes).2).
Proof.
  destruct (partialUnsubscribe_kinds db userId keywords requestedTypes)
    as [Hearly|(config & Hget & Hne & Hreq)].
  - by rewrite partialUnsubscribe_early.
  - destruct (partialUnsubscribe_outcome lower db userId keywords
                requestedTypes config Hget Hne Hreq)
      as (-> & -> & -> & _).
    done.
Qed.

(** X11: a call that reports failure has left the store as it was and
    lists no removed item; a call that reports success lists at least one
    removed item, and the user had a record. *)
Theorem partialUnsubscribe_failure_is_noop
    lower db userId keywords requestedTypes :
  if success (partialUnsubscribe lower db userId keywords requestedTypes).2
  then
    removedItems (partialUnsubscribe lower db userId keywords requestedTypes).2
    ≠ []
    ∧ isSubscribed db userId = true
  else
    (partialUnsubscribe lower db userId keywords requestedTypes).1 = db
    ∧ removedItems
        (partialUnsubscribe lower db userId keywords requestedTypes).2
      = [].
Proof.
  destruct (partialUnsubscribe_kinds db userId keywords requestedTypes)
    as [Hearly|(config & Hget & Hne & Hreq)].
  - by rewrite partialUnsubscribe_early.
  - destruct (partialUnsubscribe_outcome lower db userId keywords
                requestedTypes config Hget Hne Hreq)
      as (_ & _ & _ & -> & -> & Hsame).
    pose proof (removalCallback_steady lower keywords requestedTypes)
      as Hsteady.
    destruct (hasChanges _) eqn:Echanges.
    + split; [|unfold isSubscribed; by rewrite Hget].
      apply (mapFilters_logs _ _ _ (removalCallback_logs _ _ _)); done.
    + split; [by apply Hsame | done].
Qed.

Lemma partialUnsubscribe_met lower db userId keywords requestedTypes g :
  keywords ≠ [] ∨ requestedTypes ≠ [] →
  g ∈ currentFilters
        (partialUnsubscribe lower db userId keywords requestedTypes).1
        userId →
  targeted lower keywords g →
  requestedTypes ≠ [] ∧ messageTypes g ≠ []
  ∧ ∀ t, t ∈ messageTypes g → t ∉ requestedTypes.
Proof.
  intros Hreq Hg Htarget.
  destruct (partialUnsubscribe_kinds db userId keywords requestedTypes)
    as [[Hempty|[-> ->]]|(config & Hget & Hne & _)].
  - rewrite partialUnsubscribe_early in Hg by (by left).
    simpl in Hg. rewrite Hempty in Hg. by apply elem_of_nil in Hg.
  - by destruct Hreq.
  - destruct (partialUnsubscribe_outcome lower db userId keywords
                requestedTypes config Hget Hne Hreq) as (_ & Hcur & _).
    rewrite Hcur in Hg.
    pose proof (removalCallback_steady lower keywords requestedTypes)
      as Hsteady.
    pose proof (remainingOf_Forall _ Hsteady
      (fun g => targeted lower keywords g →
                requestedTypes ≠ [] ∧ messageTypes g ≠ []
                ∧ ∀ t, t ∈ messageTypes g → t ∉ requestedTypes)
      (keywordFilters config)) as Hall.
    eapply (proj1 (Forall_forall _ _)) in Hall; [by apply Hall | | exact Hg].
    intros f st g' _ Hcb.
    by apply (removalCallback_kept lower keywords requestedTypes f st g' Hreq).
Qed.

(** X12: after a call that names a keyword or a type, no filter that the
    request aims at is left as it was asked to go: such a filter can only
    remain when types were requested, and then it holds none of the
    requested types and at least one other.  So removing keywords leaves no
    filter with one of these keywords, and removing types everywhere leaves
    no filter with one of these types; this holds whether the call reports
    success or not. *)
Theorem partialUnsubscribe_request_met
    lower db userId keywords requestedTypes g :
  keywords ≠ [] ∨ requestedTypes ≠ [] →
  g ∈ currentFilters
        (partialUnsubscribe lower db userId keywords requestedTypes).1
        userId →
  targeted lower keywords g →
  requestedTypes ≠ [] ∧ messageTypes g ≠ []
  ∧ ∀ t, t ∈ messageTypes g → t ∉ requestedTypes.
Proof.
  intros Hreq Hg Htarget.
  destruct (partialUnsubscribe_met lower db userId keywords requestedTypes g
              Hreq Hg Htarget) as (Htypes & Hsome & Hnone).
  by split_and!.
Qed.

Lemma partialUnsubscribe_request_met_witness :
  let db : gmap string SubscriberConfig :=
    {["user1" := mkConfig "channel1"
        [mkFilter "劍" ["buy"; "sell"]; mkFilter "盾" ["buy"]]]} in
  let g := mkFilter "劍" ["sell"] in
  g ∈ currentFilters (partialUnsubscribe asciiLower db "user1" [] ["buy"]).1
        "user1"
  ∧ (["buy"] ≠ [] ∧ messageTypes g ≠ []
     ∧ ∀ t, t ∈ messageTypes g → t ∉ ["buy"]).
Proof.
  intros db g.
  assert (g ∈ currentFilters
                (partialUnsubscribe asciiLower db "user1" [] ["buy"]).1
                "user1") as Hg by (vm_compute; by left).
  split; [exact Hg|].
  apply (partialUnsubscribe_request_met asciiLower db "user1" [] ["buy"] g).
  - right. discriminate.
  - exact Hg.
  - by left.
Defined.

Lemma Forall2_shrinks_refl fs : Forall2 shrinks fs fs.
Proof. induction fs; constructor; [by split | done]. Qed.

(** X13: a call never adds and never reorders: the remaining filters are,
    in order, filters the user had, each with its keyword unchanged and
    with a subsequence of its message types. *)
Theorem partialUnsubscribe_only_removes
    lower db userId keywords requestedTypes :
  ∃ kept,
    kept `sublist_of` currentFilters db userId
    ∧ Forall2 shrinks
        (remainingFilters
           (partialUnsubscribe lower db userId keywords requestedTypes).2)
        kept.
Proof.
  destruct (partialUnsubscribe_kinds db userId keywords requestedTypes)
    as [Hearly|(config & Hget & Hne & Hreq)].
  - rewrite partialUnsubscribe_early by done. simpl.
    exists (currentFilters db userId). split; [done|].
    apply Forall2_shrinks_refl.
  - destruct (partialUnsubscribe_outcome lower db userId keywords
                requestedTypes config Hget Hne Hreq) as (-> & _).
    unfold currentFilters. rewrite Hget.
    apply (remainingOf_shrinks _
             (removalCallback_steady lower keywords requestedTypes)).
    intros f st g Hcb.
    by apply (removalCallback_kept lower keywords requestedTypes f st g Hreq).
Qed.

(** ** validateSubscriptionRequest *)

Example test_validate_missing_fields trim :
  trim "劍" = "劍" →
  validateSubscriptionRequest trim
    (mkPartial None None (Some [mkFilter "劍" ["buy"]]))
  = (false, ["userId is required"; "channelId is required"]).
Proof.
  intros H. unfold validateSubscriptionRequest, validateFilter. simpl.
  rewrite H. vm_compute. reflexivity.
Qed.

Example test_validate_invalid_type trim :
  trim "劍" = "劍" →
  validateSubscriptionRequest trim
    (mkPartial (Some "user1") (Some "channel1")
       (Some [mkFilter "劍" ["invalid"; "buy"]]))
  = (false, ["invalid message types for filter 1: invalid"]).
Proof.
  intros H. unfold validateSubscriptionRequest, validateFilter. simpl.
  rewrite H. vm_compute. reflexivity.
Qed.

Example test_validate_no_type trim :
  trim "劍" = "劍" →
  validateSubscriptionRequest trim
    (mkPartial (Some "user1") (Some "channel1") (Some [mkFilter "劍" []]))
  = (false, ["at least one message type is required for filter 1"]).
Proof.
  intros H. unfold validateSubscriptionRequest, validateFilter. simpl.
  rewrite H. vm_compute. reflexivity.
Qed.

Lemma missing_false s : missing s = false ↔ ∃ v, s = Some v ∧ v ≠ "".
Proof.
  destruct s as [v|]; simpl.
  - rewrite String.eqb_neq. split; [intros H; by exists v|].
    by intros (v' & [= <-] & H).
  - split; [done | by intros (v & ? & _)].
Qed.

Lemma validateFilter_accepts trim index f :
  validateFilter trim index f = [] ↔ well_formed_filter trim f.
Proof.
  unfold validateFilter, well_formed_filter.
  destruct (String.eqb (keyword f) "") eqn:Ek;
    [apply String.eqb_eq in Ek | apply String.eqb_neq in Ek].
  { simpl. split; [done | by intros [? _]]. }
  destruct (String.eqb (trim (keyword f)) "") eqn:Et;
    [apply String.eqb_eq in Et | apply String.eqb_neq in Et].
  { simpl. split; [done | by intros (_ & ? & _)]. }
  simpl. destruct (messageTypes f) as [|t ts] eqn:Etypes.
  { simpl. split; [done | by intros (_ & _ & ? & _)]. }
  replace (length (t :: ts) =? 0)%nat with false by done.
  set (invalid := List.filter _ (t :: ts)).
  assert (invalid = [] ↔ ∀ x, x ∈ t :: ts → x = "buy" ∨ x = "sell") as Hinv.
  { subst invalid. generalize (t :: ts). intros l.
    induction l as [|x l IH]; simpl.
    - split; [by intros _ x ?%elem_of_nil | done].
    - unfold validTypes at 1.
      destruct (arr_includes ["buy"; "sell"] x) eqn:Ex; simpl.
      + apply arr_includes_true in Ex. rewrite IH. split.
        * intros Hall y [->|Hy]%elem_of_cons; [set_solver | by apply Hall].
        * intros Hall y Hy. apply Hall. by right.
      + apply arr_includes_false in Ex. split; [done|].
        intros Hall. exfalso. apply Ex.
        destruct (Hall x) as [->| ->]; [by left | set_solver | set_solver]. }
  destruct invalid as [|x xs]; simpl.
  - split; [intros _; split_and!; [done | done | done | by apply Hinv]|done].
  - split; [done|]. intros (_ & _ & _ & Hall).
    by apply Hinv in Hall.
Qed.

Lemma validateFilters_accept (g : nat → KeywordFilter → list string)
    (P : KeywordFilter → Prop) fs :
  (∀ i f, g i f = [] ↔ P f) →
  concat (imap g fs) = [] ↔ Forall P fs.
Proof.
  revert g. induction fs as [|f fs IH]; intros g Hg; simpl.
  - split; [constructor | done].
  - rewrite Forall_cons, <- (IH (g ∘ S)), <- (Hg 0%nat f)
      by (intros i f'; apply Hg).
    split.
    + intros [? ?]%app_eq_nil. done.
    + intros [-> ->]. done.
Qed.

(** X14: a request is valid exactly when userId and channelId are present
    and not empty, the filter list is present and not empty, and every
    filter has a keyword that is not empty, also after trimming, and at
    least one message type, all of them buy or sell; and isValid is true
    exactly when no error is returned. *)
Theorem validate_accepts_exactly trim request :
  ((validateSubscriptionRequest trim request).1 = true
   ↔ (validateSubscriptionRequest trim request).2 = [])
  ∧ ((validateSubscriptionRequest trim request).1 = true
     ↔ ∃ userId channelId filters,
         p_userId request = Some userId ∧ userId ≠ ""
         ∧ p_channelId request = Some channelId ∧ channelId ≠ ""
         ∧ p_keywordFilters request = Some filters ∧ filters ≠ []
         ∧ Forall (well_formed_filter trim) filters).
Proof.
  assert ((validateSubscriptionRequest trim request).1 = true
          ↔ (validateSubscriptionRequest trim request).2 = []) as Hvalid.
  { unfold validateSubscriptionRequest. simpl. rewrite Nat.eqb_eq.
    apply length_zero_iff_nil. }
  split; [done|]. rewrite Hvalid. clear Hvalid.
  unfold validateSubscriptionRequest. simpl.
  destruct (missing (p_userId request)) eqn:Eu.
  { split; [done|]. intros (u & c & fs & Hu & Hne & _).
    assert (missing (p_userId request) = false) as E
      by (apply missing_false; eauto).
    congruence. }
  destruct (missing (p_channelId request)) eqn:Ec.
  { split; [done|]. intros (u & c & fs & _ & _ & Hc & Hne & _).
    assert (missing (p_channelId request) = false) as E
      by (apply missing_false; eauto).
    congruence. }
  apply missing_false in Eu as (u & Hu & Hune).
  apply missing_false in Ec as (c & Hc & Hcne).
  simpl. destruct (p_keywordFilters request) as [fs|].
  2: { split; [done|]. by intros (? & ? & ? & _ & _ & _ & _ & ? & _). }
  destruct fs as [|f fs].
  { simpl. split; [done|]. by intros (? & ? & ? & _ & _ & _ & _ & [= <-] & ? & _). }
  replace (length (f :: fs) =? 0)%nat with false by done.
  rewrite (validateFilters_accept _ (well_formed_filter trim))
    by (intros i f'; apply validateFilter_accepts).
  split.
  - intros Hall. exists u, c, (f :: fs). by split_and!.
  - by intros (? & ? & ? & _ & _ & _ & _ & [= <-] & _ & Hall).
Qed.

(** ** Feed listener: the recent set *)

Section FeedMore.
Variable md5 : string → string.

(** A frame either is a new broadcast, which is forwarded and recorded, or
    changes nothing and forwards nothing. *)
Lemma handleMessage_cases st m :
  (∃ p, type m = "new_message" ∧ payload m = Some p
        ∧ (generateMessageId md5 (Some p) ∉ processedMessageIds st)
        ∧ handleMessage md5 st m
          = (mkListener
               (cleanupProcessedMessages
                  (processedMessageIds st ++ [generateMessageId md5 (Some p)]))
               (reconnectAttempts st),
             [BroadcastToDiscord p]))
  ∨ ((handleMessage md5 st m).1 = st
     ∧ dispatched (handleMessage md5 st m).2 = []
     ∧ ∀ p, type m = "new_message" → payload m = Some p →
            generateMessageId md5 (Some p) ∈ processedMessageIds st).
Proof.
  destruct m as [ty pl]. simpl.
  destruct (decide (ty = "new_message")) as [->|Hty].
  - destruct pl as [p|].
    + destruct (decide (generateMessageId md5 (Some p)
                        ∈ processedMessageIds st)) as [Hin|Hout].
      * right. rewrite handleMessage_seen by done.
        split_and!; [done | done |]. by intros p' _ [= <-].
      * left. exists p. split_and!; [done | done | done |].
        by apply handleMessage_new.
    + right. split_and!; [done | done | done].
  - right. unfold handleMessage. simpl.
    destruct (String.eqb ty "connection_info"); [by split_and!|].
    destruct (String.eqb ty "subscription_confirmed"); [by split_and!|].
    destruct (String.eqb ty "pong"); [by split_and!|].
    destruct (String.eqb ty "new_message") eqn:E;
      [by apply String.eqb_eq in E | by split_and!].
Qed.

Lemma cleanup_suffix ids :
  ∃ n, cleanupProcessedMessages ids = drop n ids.
Proof.
  unfold cleanupProcessedMessages.
  destruct (1000 <? length ids)%nat; [by eexists | by exists 0%nat].
Qed.

Lemma cleanup_length ids :
  (length (cleanupProcessedMessages ids) ≤ 1000)%nat.
Proof.
  unfold cleanupProcessedMessages.
  destruct (1000 <? length ids)%nat eqn:E.
  - rewrite length_drop. lia.
  - apply Nat.ltb_ge in E. done.
Qed.

Lemma cleanup_small ids :
  (length ids ≤ 1000)%nat → cleanupProcessedMessages ids = ids.
Proof.
  intros H. unfold cleanupProcessedMessages.
  by rewrite (proj2 (Nat.ltb_ge _ _)).
Qed.

Lemma handleMessage_keeps_set st m :
  NoDup (processedMessageIds st) →
  (length (processedMessageIds st) ≤ 1000)%nat →
  NoDup (processedMessageIds (handleMessage md5 st m).1)
  ∧ (length (processedMessageIds (handleMessage md5 st m).1) ≤ 1000)%nat.
Proof.
  intros Hnd Hlen.
  destruct (handleMessage_cases st m) as [(p & _ & _ & Hnew & ->)|(-> & _)];
    [|done].
  cbn [fst processedMessageIds]. split; [|apply cleanup_length].
  destruct (cleanup_suffix (processedMessageIds st
                            ++ [generateMessageId md5 (Some p)])) as [n ->].
  eapply sublist_NoDup; [|apply sublist_drop].
  apply NoDup_app. split_and!; [done | | apply NoDup_singleton].
  by intros x Hx ->%list_elem_of_singleton.
Qed.

Lemma handleMessages_cons st m rest :
  handleMessages md5 st (m :: rest)
  = ((handleMessages md5 (handleMessage md5 st m).1 rest).1,
     (handleMessage md5 st m).2
     ++ (handleMessages md5 (handleMessage md5 st m).1 rest).2).
Proof.
  simpl. destruct (handleMessage md5 st m) as [st1 acts]. simpl.
  by destruct (handleMessages md5 st1 rest).
Qed.

Lemma dispatched_app a b : dispatched (a ++ b) = dispatched a ++ dispatched b.
Proof. unfold dispatched. apply omap_app. Qed.
End FeedMore.

(** X15: along any sequence of frames from a fresh listener the recent set
    holds no identifier twice and never more than 1000 identifiers, and the
    frames do not touch the reconnect counter. *)
Theorem recent_set_bounded md5 messages :
  NoDup (processedMessageIds (handleMessages md5 initialListener messages).1)
  ∧ (length
       (processedMessageIds (handleMessages md5 initialListener messages).1)
     ≤ 1000)%nat
  ∧ reconnectAttempts (handleMessages md5 initialListener messages).1 = 0%N.
Proof.
  assert (∀ st,
    NoDup (processedMessageIds st) →
    (length (processedMessageIds st) ≤ 1000)%nat →
    NoDup (processedMessageIds (handleMessages md5 st messages).1)
    ∧ (length (processedMessageIds (handleMessages md5 st messages).1)
       ≤ 1000)%nat
    ∧ reconnectAttempts (handleMessages md5 st messages).1
      = reconnectAttempts st) as Hrun.
  { induction messages as [|m rest IH]; intros st Hnd Hlen; [done|].
    rewrite handleMessages_cons. simpl.
    destruct (handleMessage_keeps_set md5 st m Hnd Hlen) as [Hnd' Hlen'].
    destruct (IH _ Hnd' Hlen') as (? & ? & ->). split_and!; [done | done|].
    destruct (handleMessage_cases md5 st m) as [(p & _ & _ & _ & ->)|(-> & _)];
      done. }
  apply Hrun; simpl; [constructor | lia].
Qed.

(** X16: the broadcasts that a run of the listener forwards are, in order,
    payloads of new_message frames it was given: nothing is forwarded that
    was not received, nothing twice for one frame, nothing out of order. *)
Theorem forwards_only_received md5 st messages :
  dispatched (handleMessages md5 st messages).2 `sublist_of` offered messages.
Proof.
  revert st. induction messages as [|m rest IH]; intros st; [done|].
  rewrite handleMessages_cons. simpl. rewrite dispatched_app.
  unfold offered. simpl. fold (offered rest).
  destruct (handleMessage_cases md5 st m)
    as [(p & -> & -> & _ & ->)|(_ & -> & _)]; simpl.
  - apply sublist_skip, IH.
  - destruct (if String.eqb (type m) "new_message" then payload m else None);
      [apply sublist_cons|]; apply IH.
Qed.

(** X17: while the recent set has room (its size plus the number of frames
    does not exceed 1000) no broadcast is forwarded twice: the forwarded
    payloads have pairwise different keys, none of which was in the recent
    set before. *)
Theorem no_duplicate_within_capacity md5 st messages :
  NoDup (processedMessageIds st) →
  (length (processedMessageIds st) + length messages ≤ 1000)%nat →
  NoDup ((fun p => generateMessageId md5 (Some p))
           <$> dispatched (handleMessages md5 st messages).2)
  ∧ ∀ p, p ∈ dispatched (handleMessages md5 st messages).2 →
         generateMessageId md5 (Some p) ∉ processedMessageIds st.
Proof.
  revert st. induction messages as [|m rest IH]; intros st Hnd Hlen.
  - simpl. split; [constructor | by intros p ?%elem_of_nil].
  - rewrite handleMessages_cons. simpl in *. rewrite dispatched_app.
    destruct (handleMessage_cases md5 st m)
      as [(p & _ & _ & Hnew & ->)|(-> & -> & _)]; simpl.
    + rewrite cleanup_small by (rewrite length_app; simpl; lia).
      destruct (IH (mkListener
                      (processedMessageIds st
                       ++ [generateMessageId md5 (Some p)])
                      (reconnectAttempts st))) as [Hkeys Hfresh].
      * simpl. apply NoDup_app. split_and!; [done | | apply NoDup_singleton].
        by intros x Hx ->%list_elem_of_singleton.
      * simpl. rewrite length_app. simpl. lia.
      * simpl in *. split.
        -- constructor; [|done].
           intros (q & Hq & Hin)%list_elem_of_fmap.
           apply (Hfresh q Hin). rewrite <- Hq. apply elem_of_app.
           right. by left.
        -- intros q [->|Hq]%elem_of_cons; [done|].
           intros Hin. apply (Hfresh q Hq). apply elem_of_app. by left.
    + apply IH; [done | lia].
Qed.

Lemma no_duplicate_within_capacity_witness :
  let p := mkPayload "buy" "ch1" "player" "0001" "Selling Sword+10" in
  let q := mkPayload "sell" "ch1" "player" "0001" "Selling Sword+10" in
  let frames := mkMessage "new_message" ∘ Some <$> [p; q; p; q; p] in
  NoDup ((fun p => generateMessageId (fun s => s) (Some p))
           <$> dispatched
                 (handleMessages (fun s => s) initialListener frames).2)
  ∧ ∀ p, p ∈ dispatched
               (handleMessages (fun s => s) initialListener frames).2 →
         generateMessageId (fun s => s) (Some p)
         ∉ processedMessageIds initialListener.
Proof.
  intros p q frames.
  apply (no_duplicate_within_capacity (fun s => s) initialListener frames).
  - constructor.
  - simpl. lia.
Defined.

(** X18: the recent set forgets: when it holds 1000 identifiers and a new
    broadcast arrives, it is cut down to the newest 500 (the last 499 and the
    new one), so that a later redelivery of any of the 501 oldest broadcasts
    is forwarded again. *)
Theorem eviction_forgets_oldest md5 st p :
  NoDup (processedMessageIds st) →
  length (processedMessageIds st) = 1000%nat →
  generateMessageId md5 (Some p) ∉ processedMessageIds st →
  let st' := (handleMessage md5 st (mkMessage "new_message" (Some p))).1 in
  processedMessageIds st'
  = drop 501 (processedMessageIds st) ++ [generateMessageId md5 (Some p)]
  ∧ length (processedMessageIds st') = 500%nat
  ∧ ∀ q, generateMessageId md5 (Some q) ∈ take 501 (processedMessageIds st) →
         (handleMessage md5 st' (mkMessage "new_message" (Some q))).2
         = [BroadcastToDiscord q].
Proof.
  intros Hnd Hlen Hnew st'. subst st'.
  rewrite handleMessage_new by done. cbn [fst processedMessageIds].
  assert (cleanupProcessedMessages
            (processedMessageIds st ++ [generateMessageId md5 (Some p)])
          = drop 501 (processedMessageIds st)
            ++ [generateMessageId md5 (Some p)]) as ->.
  { unfold cleanupProcessedMessages. rewrite length_app, Hlen. simpl.
    rewrite drop_app_le by lia. done. }
  split_and!; [done | rewrite length_app, length_drop, Hlen; simpl; lia |].
  intros q Hq. rewrite handleMessage_new; [done|].
  cbn [processedMessageIds].
  rewrite <- (take_drop 501 (processedMessageIds st)) in Hnd, Hnew.
  apply NoDup_app in Hnd as (_ & Hdisj & _).
  intros [Hin|Heq%list_elem_of_singleton]%elem_of_app.
  - by apply (Hdisj _ Hq).
  - apply Hnew. rewrite <- Heq. apply elem_of_app. by left.
Qed.

Lemma eviction_forgets_oldest_witness :
  let ids := (fun n : nat => pretty n +:+ "---") <$> seq 0 1000 in
  let st := mkListener ids 0 in
  let p := mkPayload "buy" "ch1" "player" "0001" "Selling Sword+10" in
  let q := mkPayload "" "" "player" "7" "" in
  let st' :=
    (handleMessage (fun s => s) st (mkMessage "new_message" (Some p))).1 in
  (handleMessage (fun s => s) st' (mkMessage "new_message" (Some q))).2
  = [BroadcastToDiscord q].
Proof.
  intros ids st p q st'.
  assert (NoDup (processedMessageIds st)) as Hnd
    by (apply (bool_decide_unpack _); vm_compute; reflexivity).
  assert (length (processedMessageIds st) = 1000%nat) as Hlen
    by (vm_compute; reflexivity).
  assert (generateMessageId (fun s => s) (Some p) ∉ processedMessageIds st)
    as Hnew by (apply (bool_decide_unpack _); vm_compute; reflexivity).
  destruct (eviction_forgets_oldest (fun s => s) st p Hnd Hlen Hnew)
    as (_ & _ & Hagain).
  apply Hagain.
  apply (bool_decide_unpack _). vm_compute. reflexivity.
Defined.

(** ** Feed listener: reconnecting *)

Lemma closeCycles_app a b st :
  closeCycles (a + b) st
  = ((closeCycles a st).1 ++ (closeCycles b (closeCycles a st).2).1,
     (closeCycles b (closeCycles a st).2).2).
Proof.
  revert st. induction a as [|a IH]; intros st; simpl.
  - by destruct (closeCycles b st).
  - destruct (closeCycle st) as [delay st1]. rewrite IH.
    destruct (closeCycles a st1) as [delays st2]. simpl.
    by destruct (closeCycles b st2).
Qed.

Lemma closeCycles_exhausted n ids a :
  closeCycles n (mkListener ids (10 + a))
  = (replicate n None, mkListener ids (10 + a)).
Proof.
  induction n as [|n IH]; simpl; [done|].
  unfold closeCycle, onClose. simpl.
  replace (10 + a <? maxReconnectAttempts)%N with false
    by (symmetry; apply N.ltb_ge; unfold maxReconnectAttempts; lia).
  by rewrite IH.
Qed.

(** X19: the delay of a scheduled reconnect is never below 5000 ms nor above
    30000 ms, it does not decrease as the attempt counter grows, and it is
    30000 ms from the fourth attempt on. *)
Theorem reconnect_delay_bounds :
  (∀ st, (5000 ≤ calculateReconnectDelay st
          ∧ calculateReconnectDelay st ≤ 30000)%N)
  ∧ (∀ ids ids' a k,
       (calculateReconnectDelay (mkListener ids a)
        ≤ calculateReconnectDelay (mkListener ids' (a + k)))%N)
  ∧ (∀ ids a, calculateReconnectDelay (mkListener ids (3 + a)) = 30000%N).
Proof.
  unfold calculateReconnectDelay, baseReconnectDelay, maxReconnectDelay.
  split_and!.
  - intros st.
    assert (1 ≤ 2 ^ reconnectAttempts st)%N
      by (apply N.neq_0_le_1, N.pow_nonzero; lia).
    lia.
  - intros ids ids' a k. simpl.
    assert (2 ^ a ≤ 2 ^ (a + k))%N by (apply N.pow_le_mono_r; lia).
    lia.
  - intros ids a. simpl. rewrite N.pow_add_r.
    assert (1 ≤ 2 ^ a)%N by (apply N.neq_0_le_1, N.pow_nonzero; lia).
    change (2 ^ 3)%N with 8%N. lia.
Qed.

(** X20: the listener gives up: once the attempt counter has reached 10 a
    close schedules nothing, however often the connection closes; from a
    fresh listener a run of closes schedules exactly ten reconnects, after
    5000, 10000, 20000 and seven times 30000 ms; and an open puts the
    counter back, so that the next close waits 5000 ms again. *)
Theorem reconnect_gives_up :
  (∀ n ids a,
     closeCycles n (mkListener ids (10 + a))
     = (replicate n None, mkListener ids (10 + a)))
  ∧ (∀ n,
       closeCycles (10 + n) initialListener
       = ((Some <$> [5000; 10000; 20000; 30000; 30000; 30000; 30000; 30000;
                     30000; 30000]%N)
          ++ replicate n None,
          mkListener [] 10))
  ∧ (∀ st, closeCycle (onOpen st)
           = (Some 5000%N, mkListener (processedMessageIds st) 1)).
Proof.
  split_and!.
  - apply closeCycles_exhausted.
  - intros n. rewrite closeCycles_app.
    replace (closeCycles 10 initialListener)
      with (Some <$> [5000; 10000; 20000; 30000; 30000; 30000; 30000; 30000;
                      30000; 30000]%N, mkListener [] (10 + 0))
      by (vm_compute; reflexivity).
    cbn [fst snd]. by rewrite closeCycles_exhausted.
  - done.
Qed.

(** ** Fan-out: the channel groups *)

Section FanOut.
Variable lower : string → string.
Variable payload : Payload.

Lemma matchedReasons_some keywordFilters :
  (0 <? length (matchedReasons lower payload keywordFilters))%nat
  = bool_decide
      (Exists (fun f => filterMatches lower payload f = true) keywordFilters).
Proof.
  rewrite matchedReasons_filter, length_fmap.
  induction keywordFilters as [|f fs IH].
  - by rewrite bool_decide_eq_false_2 by (by intros ?%Exists_nil).
  - cbn [List.filter].
    destruct (filterMatches lower payload f) eqn:E.
    + by rewrite bool_decide_eq_true_2 by (by left).
    + rewrite IH. apply bool_decide_ext. rewrite Exists_cons.
      split; [by right | intros [?|?]; [congruence | done]].
Qed.

Lemma group_of_pushUser c groups channelId entry :
  group_of c (pushUser groups channelId entry)
  = if String.eqb channelId c then group_of c groups ++ [entry]
    else group_of c groups.
Proof.
  induction groups as [|[c' users] groups IH]; simpl.
  - by destruct (String.eqb channelId c).
  - destruct (String.eqb c' channelId) eqn:E1; simpl.
    + apply String.eqb_eq in E1 as ->.
      by destruct (String.eqb channelId c).
    + destruct (String.eqb c' c) eqn:E2; [|done].
      apply String.eqb_eq in E2. subst c'.
      by rewrite String.eqb_sym, E1.
Qed.

Lemma pushUser_NoDup groups channelId entry :
  NoDup groups.*1 → NoDup (pushUser groups channelId entry).*1.
Proof.
  induction groups as [|[c' users] groups IH]; simpl; intros Hnd.
  - apply NoDup_singleton.
  - apply NoDup_cons in Hnd as [Hc' Hnd].
    destruct (String.eqb c' channelId) eqn:E; simpl.
    + by constructor.
    + constructor; [|by apply IH].
      intros [Hin| ->]%pushUser_channels; [done|].
      by rewrite String.eqb_refl in E.
Qed.

Lemma pushUser_nonempty groups channelId entry :
  Forall (fun g => g.2 ≠ []) groups →
  Forall (fun g => g.2 ≠ []) (pushUser groups channelId entry).
Proof.
  induction groups as [|[c' users] groups IH]; simpl; intros Hall.
  - by constructor.
  - apply Forall_cons in Hall as [Hhead Hall].
    destruct (String.eqb c' channelId); constructor; simpl; try done.
    + by destruct users.
    + by apply IH.
Qed.

(** The loop over the subscribers, from any map built so far. *)
Lemma groupSubscribers_fold subscribers groups :
  let result :=
    fold_left
      (fun groups '(userId, userConfig) =>
         let reasons :=
           matchedReasons lower payload (keywordFilters userConfig) in
         if (0 <? length reasons)%nat
         then pushUser groups (channelId userConfig)
                (userId, join ", " reasons)
         else groups)
      subscribers groups in
  (NoDup groups.*1 → NoDup result.*1)
  ∧ (Forall (fun g => g.2 ≠ []) groups → Forall (fun g => g.2 ≠ []) result)
  ∧ ∀ c, group_of c result
         = group_of c groups ++ members lower payload c subscribers.
Proof.
  revert groups.
  induction subscribers as [|[u config] subscribers IH]; intros groups.
  - simpl. split_and!; [done | done |]. intros c. by rewrite app_nil_r.
  - simpl. destruct (IH
      (if (0 <? length (matchedReasons lower payload (keywordFilters config)))%nat
       then pushUser groups (channelId config)
              (u, join ", " (matchedReasons lower payload
                               (keywordFilters config)))
       else groups)) as (Hnd & Hne & Hgroup).
    split_and!.
    + intros H. apply Hnd.
      destruct (0 <? _)%nat; [by apply pushUser_NoDup | done].
    + intros H. apply Hne.
      destruct (0 <? _)%nat; [by apply pushUser_nonempty | done].
    + intros c. rewrite Hgroup. unfold members at 2. simpl.
      fold (members lower payload c subscribers).
      rewrite matchedReasons_some.
      destruct (bool_decide (Exists _ _)) eqn:Ematch.
      * rewrite group_of_pushUser, andb_true_r.
        destruct (String.eqb (channelId config) c) eqn:Ec.
        -- apply String.eqb_eq in Ec.
           rewrite bool_decide_eq_true_2 by done.
           rewrite matchedReasons_filter. simpl. by rewrite <- app_assoc.
        -- apply String.eqb_neq in Ec.
           by rewrite bool_decide_eq_false_2 by done.
      * by rewrite andb_false_r.
Qed.

Lemma group_of_elem c (groups : list (string * list (string * string))) :
  group_of c groups ≠ [] → (c, group_of c groups) ∈ groups.
Proof.
  induction groups as [|[c' users] groups IH]; simpl; [done|].
  destruct (String.eqb c' c) eqn:E.
  - apply String.eqb_eq in E as ->. by left.
  - intros H. right. by apply IH.
Qed.

Lemma group_of_unique c users (groups : list (string * list (string * string))) :
  NoDup groups.*1 → (c, users) ∈ groups → group_of c groups = users.
Proof.
  induction groups as [|[c' users'] groups IH]; simpl.
  - by intros _ ?%elem_of_nil.
  - intros [Hc' Hnd]%NoDup_cons [[= <- <-]|Hin]%elem_of_cons.
    + by rewrite String.eqb_refl.
    + destruct (String.eqb c' c) eqn:E; [|by apply IH].
      apply String.eqb_eq in E as ->. exfalso. apply Hc'.
      apply list_elem_of_fmap. by exists (c, users).
Qed.

(** The groups of [groupSubscribers]: one per channel, none empty, each
    with the concerned subscribers of its channel. *)
Lemma groupSubscribers_groups subscribers :
  NoDup (groupSubscribers lower payload subscribers).*1
  ∧ ∀ c users,
      (c, users) ∈ groupSubscribers lower payload subscribers
      ↔ users = members lower payload c subscribers ∧ users ≠ [].
Proof.
  destruct (groupSubscribers_fold subscribers []) as (Hnd & Hne & Hgroup).
  fold (groupSubscribers lower payload subscribers) in Hnd, Hne, Hgroup.
  specialize (Hnd (NoDup_nil_2)). specialize (Hne (Forall_nil_2 _)).
  split; [done|]. intros c users.
  replace (members lower payload c subscribers)
    with (group_of c (groupSubscribers lower payload subscribers))
    by (by rewrite Hgroup).
  split.
  - intros Hin. split; [symmetry; by apply group_of_unique|].
    by apply (proj1 (Forall_forall _ _) Hne (c, users)).
  - intros [-> Hsome]. by apply group_of_elem.
Qed.

Lemma elem_of_members c subscribers u r :
  (u, r) ∈ members lower payload c subscribers
  ↔ ∃ config,
      (u, config) ∈ subscribers ∧ channelId config = c
      ∧ record_matches lower payload config
      ∧ r = join ", " (matchedReasons lower payload (keywordFilters config)).
Proof.
  unfold members, record_matches. rewrite list_elem_of_omap. split.
  - intros ([u' config] & Hin & Hsome).
    destruct (bool_decide (channelId config = c)) eqn:Ec; [|done].
    destruct (bool_decide (Exists _ _)) eqn:Em; [|done].
    simpl in Hsome. injection Hsome as -> <-.
    apply bool_decide_eq_true in Ec, Em. apply Exists_exists in Em.
    exists config. rewrite matchedReasons_filter. by split_and!.
  - intros (config & Hin & Hc & Hm & ->). exists (u, config).
    split; [done|].
    rewrite bool_decide_eq_true_2 by done.
    rewrite bool_decide_eq_true_2 by (by apply Exists_exists).
    simpl. by rewrite matchedReasons_filter.
Qed.
End FanOut.

Lemma broadcast_channels lower db payload :
  (broadcastToDiscord lower db payload).*1
  = (groupSubscribers lower payload (getAllSubscribers db)).*1.
Proof.
  unfold broadcastToDiscord. rewrite <- list_fmap_compose.
  apply list_fmap_ext. by intros ? [? ?] ?.
Qed.

Lemma fanOut_channels lower payload subscribers :
  (fanOut lower payload subscribers).*1
  = (groupSubscribers lower payload subscribers).*1.
Proof.
  unfold fanOut. rewrite <- list_fmap_compose.
  apply list_fmap_ext. by intros ? [? ?] ?.
Qed.

Lemma broadcastToDiscord_fanOut lower db payload :
  broadcastToDiscord lower db payload
  = fanOut lower payload (getAllSubscribers db).
Proof. reflexivity. Qed.

(** The members of a channel are taken from the subscribers in their
    order. *)
Lemma members_keys lower payload c subscribers :
  (members lower payload c subscribers).*1 `sublist_of` subscribers.*1.
Proof.
  induction subscribers as [|[u config] subscribers IH]; [done|].
  unfold members. cbn [omap list_omap].
  fold (members lower payload c subscribers).
  destruct (bool_decide (channelId config = c) && bool_decide _); simpl.
  - by apply sublist_skip.
  - by apply sublist_cons.
Qed.

(** X21: for the subscribers in the order in which the Map of the store
    yields them (each user once), the fan-out sends one message per channel,
    and a channel gets a message exactly when at least one of its
    subscribers has a matching filter; the text of the message lists these
    subscribers of the channel, in that order, each once, with the matched
    reasons of its record joined by commas. *)
Theorem fan_out_one_message_per_channel lower payload subscribers :
  NoDup subscribers.*1 →
  NoDup (fanOut lower payload subscribers).*1
  ∧ (∀ c text,
       (c, text) ∈ fanOut lower payload subscribers
       ↔ text = mentionsWithReasons (members lower payload c subscribers)
         ∧ members lower payload c subscribers ≠ [])
  ∧ (∀ c,
       (members lower payload c subscribers).*1 `sublist_of` subscribers.*1
       ∧ NoDup (members lower payload c subscribers).*1)
  ∧ (∀ c u r,
       (u, r) ∈ members lower payload c subscribers
       ↔ ∃ config,
           (u, config) ∈ subscribers ∧ channelId config = c
           ∧ record_matches lower payload config
           ∧ r = join ", "
                   (matchedReasons lower payload (keywordFilters config))).
Proof.
  intros Hkeys.
  destruct (groupSubscribers_groups lower payload subscribers)
    as [Hnd Hgroups].
  split_and!.
  - by rewrite fanOut_channels.
  - intros c text. unfold fanOut. rewrite list_elem_of_fmap. split.
    + intros ([c' users] & [= <- ->] & [-> Hsome]%Hgroups). done.
    + intros [-> Hsome].
      exists (c, members lower payload c subscribers).
      split; [done|]. by apply Hgroups.
  - intros c. split; [apply members_keys|].
    eapply sublist_NoDup; [exact Hkeys | apply members_keys].
  - intros c u r. apply elem_of_members.
Qed.

Lemma fan_out_one_message_per_channel_witness :
  let subscribers :=
    [("userB", mkConfig "channel1" [mkFilter "sword" ["buy"]]);
     ("userC", mkConfig "channel2" [mkFilter "shield" ["buy"]]);
     ("userA", mkConfig "channel1" [mkFilter "Sword" ["buy"; "sell"]])] in
  let payload := mkPayload "buy" "CH1" "Seller" "12345" "Buying Sword+7" in
  let text :=
    "<@userB> - sword (收購)" +:+ newline +:+ "<@userA> - Sword (收購)" in
  NoDup subscribers.*1
  ∧ NoDup (fanOut asciiLower payload subscribers).*1
  ∧ (("channel1", text) ∈ fanOut asciiLower payload subscribers
     ↔ text
       = mentionsWithReasons
           (members asciiLower payload "channel1" subscribers)
       ∧ members asciiLower payload "channel1" subscribers ≠ []).
Proof.
  intros subscribers payload text.
  assert (NoDup subscribers.*1) as Hkeys
    by (apply (bool_decide_unpack _); vm_compute; reflexivity).
  destruct (fan_out_one_message_per_channel asciiLower payload subscribers
              Hkeys) as (Hchannels & Htexts & _).
  split_and!; [exact Hkeys | exact Hchannels | apply Htexts].
Defined.

Example fan_out_keeps_store_order :
  fanOut asciiLower
    (mkPayload "buy" "CH1" "Seller" "12345" "Buying Sword+7")
    [("userB", mkConfig "channel1" [mkFilter "sword" ["buy"]]);
     ("userC", mkConfig "channel2" [mkFilter "shield" ["buy"]]);
     ("userA", mkConfig "channel1" [mkFilter "Sword" ["buy"; "sell"]])]
  = [("channel1",
      "<@userB> - sword (收購)" +:+ newline +:+ "<@userA> - Sword (收購)")].
Proof. vm_compute. reflexivity. Qed.

Lemma channel_in_fan_out lower db payload c :
  c ∈ (broadcastToDiscord lower db payload).*1
  ↔ ∃ userId config,
      getSubscriber db userId = Some config
      ∧ channelId config = c
      ∧ record_matches lower payload config.
Proof.
  destruct (groupSubscribers_groups lower payload (getAllSubscribers db))
    as [_ Hgroups].
  rewrite broadcast_channels, list_elem_of_fmap. split.
  - intros ([c' users] & -> & [-> Hsome]%Hgroups). simpl in *.
    destruct (members lower payload c' (getAllSubscribers db))
      as [|[u r] rest] eqn:E; [done|].
    assert ((u, r) ∈ members lower payload c' (getAllSubscribers db)) as Hin
      by (rewrite E; by left).
    apply elem_of_members in Hin as (config & Hin & Hc & Hm & _).
    exists u, config. split_and!; [|done|done].
    by apply elem_of_map_to_list in Hin.
  - intros (u & config & Hget & Hc & Hm).
    exists (c, members lower payload c (getAllSubscribers db)).
    split; [done|]. apply Hgroups. split; [done|].
    assert ((u, join ", " (matchedReasons lower payload
                             (keywordFilters config)))
            ∈ members lower payload c (getAllSubscribers db)) as Hin.
    { apply elem_of_members. exists config. split_and!; try done.
      by apply elem_of_map_to_list. }
    intros E. rewrite E in Hin. by apply elem_of_nil in Hin.
Qed.

(** X22: a channel is in the fan-out of an event exactly when the store
    holds a record with this channel of which some filter matches the
    event. *)
Theorem channel_notified_iff lower db payload c :
  c ∈ (broadcastToDiscord lower db payload).*1
  ↔ ∃ userId config,
      getSubscriber db userId = Some config
      ∧ channelId config = c
      ∧ record_matches lower payload config.
Proof. apply channel_in_fan_out. Qed.

Lemma user_in_group lower db payload c users u r :
  (c, users) ∈ groupSubscribers lower payload (getAllSubscribers db) →
  (u, r) ∈ users
  ↔ ∃ config,
      getSubscriber db u = Some config
      ∧ channelId config = c
      ∧ record_matches lower payload config
      ∧ r = join ", " (matchedReasons lower payload (keywordFilters config)).
Proof.
  destruct (groupSubscribers_groups lower payload (getAllSubscribers db))
    as [_ Hgroups].
  intros [-> _]%Hgroups. rewrite elem_of_members.
  split; intros (config & Hin & Hrest); exists config; (split; [|done]);
    by apply elem_of_map_to_list.
Qed.

(** X23: in the group of a channel a user is mentioned with a reason text
    exactly when the user's record has this channel and a matching filter,
    and the text is then the user's matched reasons joined by commas. *)
Theorem user_mentioned_iff lower db payload c users u r :
  (c, users) ∈ groupSubscribers lower payload (getAllSubscribers db) →
  (u, r) ∈ users
  ↔ ∃ config,
      getSubscriber db u = Some config
      ∧ channelId config = c
      ∧ record_matches lower payload config
      ∧ r = join ", " (matchedReasons lower payload (keywordFilters config)).
Proof. apply user_in_group. Qed.

Lemma user_mentioned_iff_witness :
  let db : gmap string SubscriberConfig :=
    {["userA" := mkConfig "channelA" [mkFilter "sword" ["buy"]]]} in
  let payload := mkPayload "buy" "CH1" "Seller" "12345" "Buying Sword+7" in
  ("userA", "sword (收購)") ∈ [("userA", "sword (收購)")]
  ↔ ∃ config,
      getSubscriber db "userA" = Some config
      ∧ channelId config = "channelA"
      ∧ record_matches asciiLower payload config
      ∧ "sword (收購)"
        = join ", " (matchedReasons asciiLower payload (keywordFilters config)).
Proof.
  intros db payload.
  apply (user_mentioned_iff asciiLower db payload "channelA"
           [("userA", "sword (收購)")] "userA" "sword (收購)").
  vm_compute. by left.
Defined.

(** X24: subscribing works end to end: after a subscribe whose request
    holds a filter with the event's message type and a keyword that is a
    case-insensitive substring of the event's content, the fan-out of the
    event has a message for the channel the user subscribed from, whatever
    the user had subscribed before. *)
Theorem subscribe_then_notified lower db request payload f :
  f ∈ req_keywordFilters request →
  message_type payload ∈ messageTypes f →
  ci_substring lower (keyword f) (content payload) →
  req_channelId request
  ∈ (broadcastToDiscord lower (subscribe lower db request).1 payload).*1.
Proof.
  intros Hf Htype Hsub. apply channel_in_fan_out.
  destruct (subscribe_stores lower db request) as [Hstored Hchannel].
  exists (req_userId request), (subscribe lower db request).2.
  split_and!; [done | done |].
  unfold record_matches.
  assert (∀ g, lower (keyword g) = lower (keyword f) →
               message_type payload ∈ messageTypes g →
               filterMatches lower payload g = true) as Hmatch.
  { intros g Hkey Hg. unfold filterMatches.
    rewrite andb_true_iff, arr_includes_true, str_includes_spec, Hkey.
    done. }
  destruct (getSubscriber db (req_userId request)) as [existing|] eqn:Hget.
  - rewrite (subscribe_existing lower db request existing Hget). simpl.
    destruct (merge_keeps lower (keywordFilters existing)
                (req_keywordFilters request) f (message_type payload))
      as (g & Hg & Hkey & Hin); [apply elem_of_app; by right | done |].
    exists g. split; [done | by apply Hmatch].
  - rewrite (subscribe_absent lower db request Hget). simpl.
    exists f. split; [done | by apply Hmatch].
Qed.

Lemma subscribe_then_notified_witness :
  let db : gmap string SubscriberConfig :=
    {["userA" := mkConfig "channelA" [mkFilter "Sword" ["sell"]]]} in
  let request := mkRequest "userA" "channelB" [mkFilter "sword" ["buy"]] in
  let payload := mkPayload "buy" "CH1" "Seller" "12345" "Buying SWORD+7" in
  "channelB"
  ∈ (broadcastToDiscord asciiLower (subscribe asciiLower db request).1
       payload).*1.
Proof.
  intros db request payload.
  apply (subscribe_then_notified asciiLower db request payload
           (mkFilter "sword" ["buy"])).
  - by left.
  - by left.
  - exists "buying ", "+7". vm_compute. reflexivity.
Defined.

(** X25: after unsubscribe the user is mentioned in no group of any
    event. *)
Theorem unsubscribed_never_mentioned lower db userId payload :
  Forall (fun g => userId ∉ g.2.*1)
    (groupSubscribers lower payload
       (getAllSubscribers (unsubscribe db userId).1)).
Proof.
  apply Forall_forall. intros [c users] Hin. simpl.
  intros ([u r] & -> & Hu)%list_elem_of_fmap. simpl in *.
  apply (user_in_group lower _ payload c users u r Hin) in Hu
    as (config & Hget & _).
  unfold unsubscribe, removeSubscriber, getSubscriber in Hget.
  destruct (db !! u) eqn:E; simpl in Hget.
  - by rewrite lookup_delete_eq in Hget.
  - congruence.
Qed.

(** X26: removing message types across all keywords works end to end:
    after partialUnsubscribe with no keyword and some types, the user is
    mentioned in no group of an event whose message type is one of them,
    whether the call reported success or not. *)
Theorem types_removed_never_mentioned
    lower db userId requestedTypes payload :
  message_type payload ∈ requestedTypes →
  Forall (fun g => userId ∉ g.2.*1)
    (groupSubscribers lower payload
       (getAllSubscribers
          (partialUnsubscribe lower db userId [] requestedTypes).1)).
Proof.
  intros Htype. apply Forall_forall. intros [c users] Hin. simpl.
  intros ([u r] & -> & Hu)%list_elem_of_fmap. simpl in *.
  apply (user_in_group lower _ payload c users u r Hin) in Hu
    as (config & Hget & _ & (f & Hf & Hmatch) & _).
  unfold filterMatches in Hmatch.
  apply andb_true_iff in Hmatch as [Hmatch%arr_includes_true _].
  assert (requestedTypes ≠ []) as Hne
    by (intros ->; by apply elem_of_nil in Htype).
  destruct (partialUnsubscribe_met lower db u [] requestedTypes f)
    as (_ & _ & Hnone).
  - by right.
  - unfold currentFilters. by rewrite Hget.
  - by left.
  - by apply (Hnone (message_type payload)).
Qed.

Lemma types_removed_never_mentioned_witness :
  let db : gmap string SubscriberConfig :=
    {["userA" := mkConfig "channelA" [mkFilter "sword" ["buy"; "sell"]]]} in
  let payload := mkPayload "buy" "CH1" "Seller" "12345" "Buying Sword+7" in
  Forall (fun g => "userA" ∉ g.2.*1)
    (groupSubscribers asciiLower payload
       (getAllSubscribers
          (partialUnsubscribe asciiLower db "userA" [] ["buy"]).1)).
Proof.
  intros db payload.
  apply (types_removed_never_mentioned asciiLower db "userA" ["buy"] payload).
  by left.
Defined.

(** ** Well-formed filters stay well-formed *)

Lemma removalCallback_well_formed trim lower keywords requestedTypes f st g :
  well_formed_filter trim f →
  (removalCallback lower keywords requestedTypes f st).1 = Some g →
  well_formed_filter trim g.
Proof.
  intros (Hk & Ht & Hne & Hvalid).
  assert ((subtractTypes requestedTypes f st).1 = Some g →
          well_formed_filter trim g) as Hsub.
  { intros (Hkey & Htypes & Hsome)%subtractTypes_kept.
    unfold well_formed_filter. rewrite Hkey. split_and!; try done.
    intros t Hin. apply Hvalid. rewrite Htypes in Hin.
    apply list_elem_of_In, filter_In in Hin as [Hin _].
    by apply list_elem_of_In. }
  unfold removalCallback. destruct (0 <? length keywords)%nat; [|done].
  unfold keywordCallback. destruct (arr_includes _ _).
  - destruct (length requestedTypes =? 0)%nat; [done | done].
  - by intros [= <-].
Qed.

(** X27: the engine keeps filters well-formed: when the stored filters and
    the requested ones have a keyword that is not blank and at least one
    message type, all of them buy or sell, so have the merged filters; and
    what partialUnsubscribe leaves of well-formed filters is well-formed. *)
Theorem well_formed_preserved
    trim lower db userId keywords requestedTypes existing newFilters :
  Forall (well_formed_filter trim) (existing ++ newFilters) →
  Forall (well_formed_filter trim) (currentFilters db userId) →
  Forall (well_formed_filter trim)
    (mergeKeywordFilters lower existing newFilters)
  ∧ Forall (well_formed_filter trim)
      (remainingFilters
         (partialUnsubscribe lower db userId keywords requestedTypes).2).
Proof.
  intros Hinputs Hstored. split.
  - apply Forall_forall. intros g Hg.
    destruct (merge_entry_types lower existing newFilters g Hg)
      as [(f & Hf & Hkey) Htypes].
    destruct (proj1 (Forall_forall _ _) Hinputs f Hf)
      as (Hk & Ht & Hne & Hvalid).
    unfold well_formed_filter. rewrite Hkey. split_and!; [done | done | |].
    + destruct (messageTypes f) as [|t ts] eqn:Ef; [done|].
      assert (t ∈ ref_types lower (existing ++ newFilters)
                    (lower (keyword g))) as Hin.
      { apply elem_of_ref_types. exists f. rewrite Hkey, Ef.
        split_and!; [done | done | by left]. }
      rewrite <- Htypes in Hin. apply elem_of_list_to_set in Hin.
      intros E. rewrite E in Hin. by apply elem_of_nil in Hin.
    + intros t Hin.
      apply (elem_of_list_to_set (C := gset string)) in Hin.
      rewrite Htypes in Hin.
      apply elem_of_ref_types in Hin as (h & Hh & _ & Hth).
      destruct (proj1 (Forall_forall _ _) Hinputs h Hh) as (_ & _ & _ & Hv).
      by apply Hv.
  - destruct (partialUnsubscribe_kinds db userId keywords requestedTypes)
      as [Hearly|(config & Hget & Hne & Hreq)].
    + by rewrite partialUnsubscribe_early.
    + destruct (partialUnsubscribe_outcome lower db userId keywords
                  requestedTypes config Hget Hne Hreq) as (-> & _).
      unfold currentFilters in Hstored. rewrite Hget in Hstored.
      apply (remainingOf_Forall _
               (removalCallback_steady lower keywords requestedTypes)).
      intros f st g Hf Hcb.
      eapply removalCallback_well_formed; [|exact Hcb].
      by apply (proj1 (Forall_forall _ _) Hstored).
Qed.

Lemma well_formed_preserved_witness :
  let trim (s : string) := s in
  let db : gmap string SubscriberConfig :=
    {["user1" := mkConfig "channel1"
        [mkFilter "sword" ["buy"; "sell"]; mkFilter "shield" ["buy"]]]} in
  Forall (well_formed_filter trim)
    (mergeKeywordFilters asciiLower [mkFilter "Sword" ["buy"]]
       [mkFilter "sword" ["sell"]])
  ∧ Forall (well_formed_filter trim)
      (remainingFilters (partialUnsubscribe asciiLower db "user1" [] ["buy"]).2).
Proof.
  intros trim db.
  assert (∀ k ts, k ≠ "" → ts ≠ [] →
            (∀ t, t ∈ ts → t = "buy" ∨ t = "sell") →
            well_formed_filter trim (mkFilter k ts)) as Hwf
    by (intros k ts ? ? ?; by split_and!).
  apply (well_formed_preserved trim asciiLower db "user1" [] ["buy"]
           [mkFilter "Sword" ["buy"]] [mkFilter "sword" ["sell"]]).
  - repeat (apply Forall_cons; split;
              [apply Hwf; [discriminate | discriminate | set_solver]|]).
    apply Forall_nil. done.
  - assert (currentFilters db "user1"
            = [mkFilter "sword" ["buy"; "sell"]; mkFilter "shield" ["buy"]])
      as -> by (vm_compute; reflexivity).
    repeat (apply Forall_cons; split;
              [apply Hwf; [discriminate | discriminate | set_solver]|]).
    apply Forall_nil. done.
Defined.

(** ** A record without filters *)

Lemma enumerates_elem subscribers db u config :
  enumerates subscribers db →
  (u, config) ∈ subscribers ↔ getSubscriber db u = Some config.
Proof.
  unfold enumerates, getSubscriber. intros ->. apply elem_of_map_to_list.
Qed.

Lemma user_in_listed_group lower db payload subscribers c users u r :
  enumerates subscribers db →
  (c, users) ∈ groupSubscribers lower payload subscribers →
  (u, r) ∈ users
  ↔ ∃ config,
      getSubscriber db u = Some config
      ∧ channelId config = c
      ∧ record_matches lower payload config
      ∧ r = join ", " (matchedReasons lower payload (keywordFilters config)).
Proof.
  intros Henum.
  destruct (groupSubscribers_groups lower payload subscribers)
    as [_ Hgroups].
  intros [-> _]%Hgroups. rewrite elem_of_members.
  split; intros (config & Hin & Hrest); exists config; (split; [|done]);
    by apply (enumerates_elem subscribers db).
Qed.

Lemma channel_in_fanOut lower db payload subscribers c :
  enumerates subscribers db →
  c ∈ (fanOut lower payload subscribers).*1
  ↔ ∃ userId config,
      getSubscriber db userId = Some config
      ∧ channelId config = c
      ∧ record_matches lower payload config.
Proof.
  intros Henum.
  destruct (groupSubscribers_groups lower payload subscribers)
    as [_ Hgroups].
  rewrite fanOut_channels, list_elem_of_fmap. split.
  - intros ([c' users] & -> & [-> Hsome]%Hgroups). simpl in *.
    destruct (members lower payload c' subscribers)
      as [|[u r] rest] eqn:E; [done|].
    assert ((u, r) ∈ members lower payload c' subscribers) as Hin
      by (rewrite E; by left).
    apply elem_of_members in Hin as (config & Hin & Hc & Hm & _).
    exists u, config. split_and!; [|done|done].
    by apply (enumerates_elem subscribers db).
  - intros (u & config & Hget & Hc & Hm).
    exists (c, members lower payload c subscribers).
    split; [done|]. apply Hgroups. split; [done|].
    assert ((u, join ", " (matchedReasons lower payload
                             (keywordFilters config)))
            ∈ members lower payload c subscribers) as Hin.
    { apply elem_of_members. exists config. split_and!; try done.
      by apply (enumerates_elem subscribers db). }
    intros E. rewrite E in Hin. by apply elem_of_nil in Hin.
Qed.

Lemma no_filter_no_match lower payload config :
  keywordFilters config = [] → ¬ record_matches lower payload config.
Proof.
  intros Hempty (f & Hf & _). rewrite Hempty in Hf.
  by apply elem_of_nil in Hf.
Qed.

(** The fan-out of the scenario, in whichever order the store yields the
    two records. *)
Lemma scenario_fan_out subscribers :
  enumerates subscribers scenario_store →
  fanOut asciiLower scenario_event subscribers
  = [("channelA", "<@userA> - 劍 (收購)")].
Proof.
  unfold enumerates.
  replace (map_to_list scenario_store)
    with [("userA", mkConfig "channelA"
                      [mkFilter "劍" ["buy"]; mkFilter "盾" ["buy"]]);
          ("userB", mkConfig "channelB" [])]
    by (vm_compute; reflexivity).
  intros Hperm. symmetry in Hperm.
  apply Permutation_length_2_inv in Hperm as [-> | ->];
    vm_compute; reflexivity.
Qed.

(** C2, as the code has it: a user who subscribes with no prior record and
    an empty keyword filter list gets a record without filters and receives
    no broadcast: for every inbound event, in whichever order the store
    yields its records, the dispatcher mentions that user in no channel
    group, and the user's channel is in the fan-out only when another
    subscriber of that channel has a matching filter.  In the scenario of
    the specification (A subscribed to 劍 and 盾 with type buy, B with an empty
    list) a buy event whose content contains 劍 is dispatched to A's channel
    only, with A's reason text 劍 (收購). *)
Theorem empty_subscription_receives_nothing
    lower db request payload subscribers :
  getSubscriber db (req_userId request) = None →
  req_keywordFilters request = [] →
  enumerates subscribers (subscribe lower db request).1 →
  getSubscriber (subscribe lower db request).1 (req_userId request)
  = Some (mkConfig (req_channelId request) [])
  ∧ Forall (fun g => req_userId request ∉ g.2.*1)
      (groupSubscribers lower payload subscribers)
  ∧ (req_channelId request ∈ (fanOut lower payload subscribers).*1
     ↔ ∃ other config,
         other ≠ req_userId request
         ∧ getSubscriber db other = Some config
         ∧ channelId config = req_channelId request
         ∧ record_matches lower payload config)
  ∧ (∀ scenario_subscribers,
       enumerates scenario_subscribers scenario_store →
       fanOut asciiLower scenario_event scenario_subscribers
       = [("channelA", "<@userA> - 劍 (收購)")]).
Proof.
  intros Habsent Hempty Henum.
  assert (getSubscriber (subscribe lower db request).1 (req_userId request)
          = Some (mkConfig (req_channelId request) [])) as Hstored.
  { rewrite subscribe_absent by done. simpl. unfold getSubscriber.
    by rewrite lookup_insert_eq, Hempty. }
  assert (∀ other, other ≠ req_userId request →
            getSubscriber (subscribe lower db request).1 other
            = getSubscriber db other) as Hother.
  { intros other Hne. rewrite subscribe_absent by done. simpl.
    unfold getSubscriber. by rewrite lookup_insert_ne. }
  split_and!; [done | | | apply scenario_fan_out].
  - apply Forall_forall. intros [c users] Hin. simpl.
    intros ([u r] & Heq & Hu)%list_elem_of_fmap. simpl in Heq. subst u.
    apply (user_in_listed_group lower _ payload subscribers c users _ r
             Henum Hin) in Hu as (config & Hget & _ & Hmatch & _).
    rewrite Hstored in Hget. injection Hget as <-.
    by apply (no_filter_no_match lower payload) in Hmatch.
  - rewrite (channel_in_fanOut lower _ payload subscribers _ Henum). split.
    + intros (u & config & Hget & Hc & Hmatch).
      assert (u ≠ req_userId request) as Hne.
      { intros ->. rewrite Hstored in Hget. injection Hget as <-.
        by apply (no_filter_no_match lower payload) in Hmatch. }
      exists u, config. rewrite <- (Hother u Hne). by split_and!.
    + intros (other & config & Hne & Hget & Hc & Hmatch).
      exists other, config. by rewrite Hother.
Qed.

Lemma empty_subscription_receives_nothing_witness :
  let db : gmap string SubscriberConfig :=
    {["userA" := mkConfig "channelB" [mkFilter "sword" ["buy"]]]} in
  let request := mkRequest "userB" "channelB" [] in
  let payload := mkPayload "buy" "CH1" "Seller" "12345" "Buying Sword+7" in
  let subscribers := map_to_list (subscribe asciiLower db request).1 in
  getSubscriber (subscribe asciiLower db request).1 "userB"
  = Some (mkConfig "channelB" [])
  ∧ Forall (fun g => "userB" ∉ g.2.*1)
      (groupSubscribers asciiLower payload subscribers)
  ∧ ("channelB" ∈ (fanOut asciiLower payload subscribers).*1
     ↔ ∃ other config,
         other ≠ "userB"
         ∧ getSubscriber db other = Some config
         ∧ channelId config = "channelB"
         ∧ record_matches asciiLower payload config).
Proof.
  intros db request payload subscribers.
  destruct (empty_subscription_receives_nothing asciiLower db request payload
              subscribers) as (Hstored & Hnever & Hchannel & _).
  - vm_compute. reflexivity.
  - reflexivity.
  - unfold enumerates. reflexivity.
  - by split_and!.
Defined.
